(** * Ichik Editor: the stateless helpers of ichik-editor-1.0.0.js

    A shallow embedding of the three pure helpers of the editor,
    [enforceHttps], [escapeHtml] and [parseToMd], and the properties the
    specification states about them.

    Strings are sequences of code units in the Latin-1 range (one [ascii]
    per unit); the DOM is a tree of text, comment and element nodes whose
    elements carry a tag name, an attribute map and their child nodes. *)

From Stdlib Require Import NArith Ascii String DecimalString.
From stdpp Require Import gmap strings list.

Local Open Scope string_scope.

(* Concatenation computes on a literal first argument, as in the proofs
   below. *)
#[local] Arguments String.append !s1 s2 : simpl nomatch.

(** ** JavaScript string primitives used by the helpers *)

Module JsString.

(** Code of a unit. *)
Definition code (c : ascii) : N := N_of_ascii c.

(** WhiteSpace and LineTerminator of ECMAScript, as far as they lie in
    the Latin-1 range: TAB, LF, VT, FF, CR, SP and NBSP. *)
Definition isWhiteSpace (c : ascii) : bool :=
  let n := code c in
  ((9 <=? n) && (n <=? 13) || (n =? 32) || (n =? 160))%N.

(** [String.prototype.toLowerCase], unit by unit: A-Z and the upper case
    letters of Latin-1 (all of 192..222 but the multiplication sign). *)
Definition lowerChar (c : ascii) : ascii :=
  let n := code c in
  if ((65 <=? n) && (n <=? 90)
      || (192 <=? n) && (n <=? 222) && negb (n =? 215))%N
  then ascii_of_N (n + 32) else c.

Fixpoint toLowerCase (s : string) : string :=
  match s with
  | EmptyString => EmptyString
  | String c s' => String (lowerChar c) (toLowerCase s')
  end.

Fixpoint trimStart (s : string) : string :=
  match s with
  | EmptyString => EmptyString
  | String c s' => if isWhiteSpace c then trimStart s' else s
  end.

Fixpoint trimEnd (s : string) : string :=
  match s with
  | EmptyString => EmptyString
  | String c s' =>
      match trimEnd s' with
      | EmptyString => if isWhiteSpace c then EmptyString else String c EmptyString
      | r => String c r
      end
  end.

(** [String.prototype.trim]. *)
Definition trim (s : string) : string := trimEnd (trimStart s).

(** [s.startsWith(searchString)]. *)
Fixpoint startsWith (s searchString : string) {struct searchString} : bool :=
  match searchString, s with
  | EmptyString, _ => true
  | String _ _, EmptyString => false
  | String p ps, String c cs => Ascii.eqb c p && startsWith cs ps
  end.

(** [s.replace(/c/g, by)] for a pattern that is the single unit [c] and
    a replacement [by] without dollar sign, which is then taken
    literally: every occurrence of [c], left to right, becomes [by]. *)
Fixpoint replace (c : ascii) (by_ : string) (s : string) : string :=
  match s with
  | EmptyString => EmptyString
  | String x s' =>
      if Ascii.eqb x c then by_ +:+ replace c by_ s'
      else String x (replace c by_ s')
  end.

(** Truthiness of a string: every string but the empty one. *)
Definition truthy (s : string) : bool :=
  match s with EmptyString => false | String _ _ => true end.

(** The text a number takes in a template or a concatenation. *)
Definition ofNat (n : nat) : string :=
  NilEmpty.string_of_uint (Nat.to_uint n).

(** The text a nullable string takes in a template literal. *)
Definition interpolate (v : option string) : string :=
  match v with Some s => s | None => "null" end.

Definition LF : string := String "010"%char EmptyString.
Definition DQUOTE : string := String "034"%char EmptyString.

End JsString.

Import JsString.

(** ** 2. STATELESS HELPERS (Pure Utils) *)

(** The [alerts] labels handed to [enforceHttps] as [messages]. *)
Record Messages : Type := {
  httpsRequired : string;
  invalidProtocol : string
}.

Definition DEFAULT_ALERTS : Messages := {|
  httpsRequired := "For security reasons, only HTTPS URLs are allowed.";
  invalidProtocol := "Protocol not allowed. Only HTTPS."
|}.

(** The character class of the scheme pattern: letters, digits, hyphen
    and dot. *)
Definition isSchemeChar (c : ascii) : bool :=
  let n := code c in
  ((97 <=? n) && (n <=? 122) || (65 <=? n) && (n <=? 90)
   || (48 <=? n) && (n <=? 57) || (n =? 45) || (n =? 46))%N.

Fixpoint skipSchemeChars (s : string) : string :=
  match s with
  | EmptyString => EmptyString
  | String c s' => if isSchemeChar c then skipSchemeChars s' else s
  end.

(** The test of the anchored pattern: one or more class characters, then a
    colon and two slashes.  The colon is outside the class, so
    the greedy run of class characters is the only candidate. *)
Definition schemePattern_test (url : string) : bool :=
  match url with
  | EmptyString => false
  | String c _ => isSchemeChar c && startsWith (skipSchemeChars url) "://"
  end.

(** What a call of [enforceHttps] does: the messages it hands to [alert],
    in order, and the value it returns ([None] for null). *)
Record Outcome : Type := {
  alerted : list string;
  returned : option string
}.

(** Validates URLs to enforce HTTPS and avoid unsafe protocols. *)
Definition enforceHttps (inputUrl : string) (messages : Messages) : Outcome :=
  if negb (truthy inputUrl) then {| alerted := []; returned := None |}
  else
    let url := trim inputUrl in
    if startsWith (toLowerCase url) "https://" then
      {| alerted := []; returned := Some url |}
    else if startsWith (toLowerCase url) "http://" then
      {| alerted := [httpsRequired messages]; returned := None |}
    else if schemePattern_test url then
      {| alerted := [invalidProtocol messages]; returned := None |}
    else {| alerted := []; returned := Some ("https://" +:+ url) |}.

(** Sanitizes user text before converting to Markdown. *)
Definition escapeHtml (text : string) : string :=
  if negb (truthy text) then EmptyString
  else
    replace "'" "&#039;"
      (replace "034" "&quot;"
        (replace ">" "&gt;"
          (replace "<" "&lt;"
            (replace "&" "&amp;" text)))).

(** ** The DOM as [parseToMd] reads it *)

Set Warnings "-register-all".

(** A node is a text node, an element, or a node that is neither and has
    no children (a comment).  An element has its [tagName], its attributes
    and its [childNodes] in document order. *)
Inductive Node : Type :=
| Text (textContent : string)
| Comment (data : string)
| Element (tagName : string) (attributes : gmap string string)
          (childNodes : list Node).

Definition isElement (n : Node) : bool :=
  match n with Element _ _ _ => true | _ => false end.

(** [element.getAttribute(name)]: the value, or null. *)
Definition getAttribute (attributes : gmap string string) (name : string)
  : option string := attributes !! name.

(** The [parentElement] of a node, as far as the parser looks at it. *)
Record Parent : Type := {
  parentTagName : string;
  parentChildNodes : list Node
}.

(** [parent.children]: the child nodes that are elements. *)
Definition children (parent : Parent) : list Node :=
  filter (fun n => isElement n = true) (parentChildNodes parent).

(** Where a node hangs: its [parentElement] and its own position among the
    child nodes of that parent.  A node is told from its siblings by this
    position, as the DOM tells it by identity. *)
Record Slot : Type := {
  parentElement : Parent;
  position : nat
}.

(** [Array.from(parent.children).indexOf(node)] for the node in the slot:
    the number of element children before it. *)
Definition indexOfNode (slot : Slot) : nat :=
  length (filter (fun n => isElement n = true)
            (take (position slot) (parentChildNodes (parentElement slot)))).

(** ** Completions: a returned string or a thrown TypeError *)

Inductive Completion (A : Type) : Type :=
| Return (value : A)
| Throw_TypeError.
Arguments Return {A} value.
Arguments Throw_TypeError {A}.

#[global] Instance Completion_ret : MRet Completion := fun A v => Return v.
#[global] Instance Completion_bind : MBind Completion := fun A B k c =>
  match c with
  | Return v => k v
  | Throw_TypeError => Throw_TypeError
  end.

(** The markup of one element once the markdown of its children is known:
    the switch on [node.tagName].  [slot] is [None] when the node has no
    parent element; reading [parent.tagName] then throws. *)
Definition render (slot : option Slot) (tagName : string)
    (attributes : gmap string string) (content : string)
  : Completion string :=
  if bool_decide (tagName = "B") || bool_decide (tagName = "STRONG") then
    Return ("**" +:+ content +:+ "**")
  else if bool_decide (tagName = "I") || bool_decide (tagName = "EM") then
    Return ("*" +:+ content +:+ "*")
  else if bool_decide (tagName = "H1") then Return ("# " +:+ content +:+ LF +:+ LF)
  else if bool_decide (tagName = "H2") then Return ("## " +:+ content +:+ LF +:+ LF)
  else if bool_decide (tagName = "H3") then Return ("### " +:+ content +:+ LF +:+ LF)
  else if bool_decide (tagName = "H4") then Return ("#### " +:+ content +:+ LF +:+ LF)
  else if bool_decide (tagName = "H5") then Return ("##### " +:+ content +:+ LF +:+ LF)
  else if bool_decide (tagName = "H6") then Return ("###### " +:+ content +:+ LF +:+ LF)
  else if bool_decide (tagName = "DIV") || bool_decide (tagName = "P") then
    Return (if truthy (trim content) then content +:+ LF +:+ LF else EmptyString)
  else if bool_decide (tagName = "BR") then Return LF
  else if bool_decide (tagName = "UL") || bool_decide (tagName = "OL") then
    Return (content +:+ LF)
  else if bool_decide (tagName = "LI") then
    match slot with
    | None => Throw_TypeError
    | Some here =>
        let index :=
          if bool_decide (parentTagName (parentElement here) = "OL")
          then ofNat (indexOfNode here + 1) +:+ ". "
          else "- " in
        Return (index +:+ content +:+ LF)
    end
  else if bool_decide (tagName = "HR") then Return (LF +:+ "---" +:+ LF +:+ LF)
  else if bool_decide (tagName = "A") then
    Return ("[" +:+ content +:+ "]("
            +:+ interpolate (getAttribute attributes "href") +:+ ")")
  else if bool_decide (tagName = "IMG") then
    let alt := match getAttribute attributes "alt" with
               | Some a => if truthy a then a else EmptyString
               | None => EmptyString
               end in
    let src := getAttribute attributes "src" in
    let width := getAttribute attributes "width" in
    match width with
    | Some w =>
        if truthy w then
          Return (LF +:+ "<img src=" +:+ DQUOTE +:+ interpolate src +:+ DQUOTE
                  +:+ " alt=" +:+ DQUOTE +:+ alt +:+ DQUOTE
                  +:+ " width=" +:+ DQUOTE +:+ w +:+ DQUOTE +:+ ">" +:+ LF)
        else Return (LF +:+ "![" +:+ alt +:+ "](" +:+ interpolate src +:+ ")" +:+ LF)
    | None => Return (LF +:+ "![" +:+ alt +:+ "](" +:+ interpolate src +:+ ")" +:+ LF)
    end
  else Return content.

(** Recursive Parser: Traverses DOM tree and generates Markdown.
    [slot] is where [node] hangs ([None]: no parent element); the children
    of an element hang at their positions under it. *)
Fixpoint parseToMd (slot : option Slot) (node : Node) {struct node}
  : Completion string :=
  match node with
  | Text textContent => Return (escapeHtml textContent)
  | Comment _ => Return EmptyString
  | Element tagName attributes childNodes =>
      let self := {| parentTagName := tagName; parentChildNodes := childNodes |} in
      content ←
        (fix forEach (i : nat) (rest : list Node) (content : string)
           {struct rest} : Completion string :=
           match rest with
           | [] => Return content
           | child :: rest' =>
               md ← parseToMd (Some {| parentElement := self; position := i |}) child;
               forEach (S i) rest' (content +:+ md)
           end) 0 childNodes EmptyString;
      render slot tagName attributes content
  end.

(** The loop over [node.childNodes] on its own: the markdown gathered from
    the children [rest] of [self], the first of which hangs at position
    [i], appended to [content]. *)
Section ForEachChild.

Variable self : Parent.

Fixpoint forEachChild (i : nat) (rest : list Node) (content : string)
    {struct rest} : Completion string :=
  match rest with
  | [] => Return content
  | child :: rest' =>
      md ← parseToMd (Some {| parentElement := self; position := i |}) child;
      forEachChild (S i) rest' (content +:+ md)
  end.

End ForEachChild.

(** ** 4. PUBLIC API *)

(** [getMarkdown]: the markdown of the editor element, trimmed.  [slot] is
    where the editor element hangs in the page. *)
Definition getMarkdown (slot : option Slot) (editorEl : Node)
  : Completion string :=
  md ← parseToMd slot editorEl;
  Return (trim md).

(** ** The save button of the link and image popup *)

(** The class of a decimal digit in the width pattern. *)
Definition isDigit (c : ascii) : bool :=
  let n := code c in ((48 <=? n) && (n <=? 57))%N.

Fixpoint skipDigits (s : string) : string :=
  match s with
  | EmptyString => EmptyString
  | String c s' => if isDigit c then skipDigits s' else s
  end.

(** The test of the width pattern, anchored at both ends: one or more
    digits, then nothing, [px] or a percent sign.  Neither unit begins
    with a digit, so the greedy run of digits is the only candidate. *)
Definition widthPattern_test (w : string) : bool :=
  match w with
  | EmptyString => false
  | String c _ =>
      isDigit c
      && (let unit := skipDigits w in
          String.eqb unit EmptyString || String.eqb unit "px"
          || String.eqb unit "%")
  end.

(** The value of a form field, or the empty text when it is falsy. *)
Definition orEmpty (value : string) : string :=
  if truthy value then value else EmptyString.

(** A call of [document.execCommand]; the markup handed to [insertHTML]
    is that of the image element given here. *)
Inductive Command : Type :=
| Unlink
| CreateLink (url : string)
| InsertHTML (img : Node).

(** What a click on the save button does to the document: the messages
    it alerts, the commands it executes, in order, and the attributes of
    the existing image, if one is being edited, afterwards. *)
Record Saved : Type := {
  savedAlerts : list string;
  savedCommands : list Command;
  savedExisting : option (gmap string string)
}.

(** The attributes of an image after [src], [alt] and the width have been
    set on it; [removeStale] is whether a width that does not pass the
    pattern removes the attribute (the existing image) or leaves the
    attributes alone (the new one). *)
Definition setImageAttributes (removeStale : bool)
    (attributes : gmap string string) (secureUrl alt w : string)
  : gmap string string :=
  let withSrc := <["src" := secureUrl]> attributes in
  let withAlt := <["alt" := alt]> withSrc in
  if truthy w && widthPattern_test w then <["width" := w]> withAlt
  else if removeStale then delete "width" withAlt
  else withAlt.

(** The click handler of the save button of a popup of the given [type],
    opened for [existingNode] (the attributes of the image under the
    cursor, if any), with the values of the three form fields. *)
Definition onSaveClick (type : string)
    (existingNode : option (gmap string string))
    (urlVal altVal widthVal : string) (messages : Messages) : Saved :=
  if bool_decide (type = "link") then
    if negb (truthy (trim urlVal)) then
      {| savedAlerts := []; savedCommands := [Unlink];
         savedExisting := existingNode |}
    else
      let outcome := enforceHttps urlVal messages in
      match returned outcome with
      | Some secureUrl =>
          if truthy secureUrl then
            {| savedAlerts := alerted outcome;
               savedCommands := [CreateLink secureUrl];
               savedExisting := existingNode |}
          else {| savedAlerts := alerted outcome; savedCommands := [];
                  savedExisting := existingNode |}
      | None => {| savedAlerts := alerted outcome; savedCommands := [];
                   savedExisting := existingNode |}
      end
  else if bool_decide (type = "image") then
    let outcome := enforceHttps urlVal messages in
    match returned outcome with
    | Some secureUrl =>
        if truthy secureUrl then
          let alt := orEmpty altVal in
          let w := orEmpty widthVal in
          match existingNode with
          | Some attributes =>
              {| savedAlerts := alerted outcome; savedCommands := [];
                 savedExisting :=
                   Some (setImageAttributes true attributes secureUrl alt w) |}
          | None =>
              {| savedAlerts := alerted outcome;
                 savedCommands :=
                   [InsertHTML
                      (Element "IMG" (setImageAttributes false ∅ secureUrl alt w) [])];
                 savedExisting := None |}
          end
        else {| savedAlerts := alerted outcome; savedCommands := [];
                savedExisting := existingNode |}
    | None => {| savedAlerts := alerted outcome; savedCommands := [];
                 savedExisting := existingNode |}
    end
  else {| savedAlerts := []; savedCommands := []; savedExisting := existingNode |}.

(** ** Vocabulary of the specification *)

(** The entity a character is mapped to, after the table of the
    specification; any other character stands for itself. *)
Definition entityOf (c : ascii) : string :=
  if Ascii.eqb c "&" then "&amp;"
  else if Ascii.eqb c "<" then "&lt;"
  else if Ascii.eqb c ">" then "&gt;"
  else if Ascii.eqb c "034" then "&quot;"
  else if Ascii.eqb c "'" then "&#039;"
  else String c EmptyString.

(** One of the five escaped characters. *)
Definition isEscaped (c : ascii) : bool :=
  Ascii.eqb c "&" || Ascii.eqb c "<" || Ascii.eqb c ">"
  || Ascii.eqb c "034" || Ascii.eqb c "'".

(** Each character replaced by a string, the results concatenated. *)
Fixpoint flatMapChars (f : ascii -> string) (s : string) : string :=
  match s with
  | EmptyString => EmptyString
  | String c s' => f c +:+ flatMapChars f s'
  end.

(** [s.includes(c)] for a single character. *)
Fixpoint includes (s : string) (c : ascii) : bool :=
  match s with
  | EmptyString => false
  | String x s' => Ascii.eqb x c || includes s' c
  end.

(** Some character of [s] is one of the five. *)
Fixpoint needsEscape (s : string) : bool :=
  match s with
  | EmptyString => false
  | String c s' => isEscaped c || needsEscape s'
  end.

(** Every character of [s] is white space ([s] may be empty). *)
Fixpoint isBlank (s : string) : bool :=
  match s with
  | EmptyString => true
  | String c s' => isWhiteSpace c && isBlank s'
  end.

(** Every character of [s] is in the class of the scheme pattern. *)
Fixpoint allSchemeChars (s : string) : bool :=
  match s with
  | EmptyString => true
  | String c s' => isSchemeChar c && allSchemeChars s'
  end.

(** The markdown of a node that does not throw. *)
Definition markdownOf (slot : option Slot) (node : Node) : string :=
  match parseToMd slot node with
  | Return md => md
  | Throw_TypeError => EmptyString
  end.

(** The markdown of the children [rest] of [self], the first at position
    [i], one after the other. *)
Fixpoint concatChildren (self : Parent) (i : nat) (rest : list Node) : string :=
  match rest with
  | [] => EmptyString
  | child :: rest' =>
      markdownOf (Some {| parentElement := self; position := i |}) child
      +:+ concatChildren self (S i) rest'
  end.

(** The two forms an image takes. *)
Definition rawImage (src alt width : string) : string :=
  LF +:+ "<img src=" +:+ DQUOTE +:+ src +:+ DQUOTE
  +:+ " alt=" +:+ DQUOTE +:+ alt +:+ DQUOTE
  +:+ " width=" +:+ DQUOTE +:+ width +:+ DQUOTE +:+ ">" +:+ LF.

Definition markdownImage (alt src : string) : string :=
  LF +:+ "![" +:+ alt +:+ "](" +:+ src +:+ ")" +:+ LF.

(** The value of an attribute, the empty text when there is none. *)
Definition attributeOrEmpty (attributes : gmap string string) (name : string)
  : string := default EmptyString (attributes !! name).

Definition isListItem (node : Node) : bool :=
  match node with
  | Element tagName _ _ => bool_decide (tagName = "LI")
  | _ => false
  end.

(** Every list item of the tree of [node], which hangs at [slot], has a
    parent element. *)
Fixpoint listItemsParented (slot : option Slot) (node : Node) {struct node} : Prop :=
  match node with
  | Element tagName _ childNodes =>
      (tagName = "LI" -> is_Some slot)
      /\ (fix each (i : nat) (rest : list Node) {struct rest} : Prop :=
            match rest with
            | [] => True
            | child :: rest' =>
                listItemsParented
                  (Some {| parentElement :=
                             {| parentTagName := tagName;
                                parentChildNodes := childNodes |};
                           position := i |}) child
                /\ each (S i) rest'
            end) 0 childNodes
  | _ => True
  end.

Section EachChildParented.

Variable self : Parent.

Fixpoint eachChildParented (i : nat) (rest : list Node) {struct rest} : Prop :=
  match rest with
  | [] => True
  | child :: rest' =>
      listItemsParented (Some {| parentElement := self; position := i |}) child
      /\ eachChildParented (S i) rest'
  end.

End EachChildParented.

(** ** Trees of the examples *)

Definition item (text : string) : Node := Element "LI" ∅ [Text text].

(** An ordered list of two items. *)
Definition ol_a_b : Node := Element "OL" ∅ [item "a"; item "b"].

(** An ordered list whose only item comes after a text node. *)
Definition ol_text_then_item : Node := Element "OL" ∅ [Text "x"; item "a"].

Definition image_attributes (width : string) : gmap string string :=
  <["width" := width]> (<["alt" := "logo"]> (<["src" := "https://x/y.png"]> ∅)).

(** ** Vocabulary of the further properties *)

(** The character an escaped text begins with, read back from its first
    one or two characters. *)
Definition firstEscaped (s : string) : option ascii :=
  match s with
  | EmptyString => None
  | String x r =>
      if Ascii.eqb x "&" then
        match r with
        | EmptyString => None
        | String y _ =>
            if Ascii.eqb y "a" then Some "&"%char
            else if Ascii.eqb y "l" then Some "<"%char
            else if Ascii.eqb y "g" then Some ">"%char
            else if Ascii.eqb y "q" then Some "034"%char
            else if Ascii.eqb y "#" then Some "'"%char
            else None
        end
      else Some x
  end.

(** Every character of [s] is a decimal digit. *)
Fixpoint allDigits (s : string) : bool :=
  match s with
  | EmptyString => true
  | String c s' => isDigit c && allDigits s'
  end.

(** A place under a parent of the given tag with [k] element children
    before it. *)
Definition slotAt (parentTag : string) (k : nat) : Slot :=
  {| parentElement :=
       {| parentTagName := parentTag;
          parentChildNodes := replicate k (Element EmptyString ∅ []) |};
     position := k |}.

(** The markdown of the children [rest] of a parent of the given tag, one
    after the other, when [k] element children come before them: each
    element child counts, a text or a comment does not. *)
Fixpoint childrenFrom (parentTag : string) (k : nat) (rest : list Node) : string :=
  match rest with
  | [] => EmptyString
  | child :: rest' =>
      markdownOf (Some (slotAt parentTag k)) child
      +:+ childrenFrom parentTag (if isElement child then S k else k) rest'
  end.

Definition isComment (node : Node) : bool :=
  match node with Comment _ => true | _ => false end.

(** The tree without the comments below its root. *)
Fixpoint stripComments (node : Node) : Node :=
  match node with
  | Element tagName attributes childNodes =>
      Element tagName attributes
        ((fix strip (rest : list Node) : list Node :=
            match rest with
            | [] => []
            | child :: rest' =>
                if isComment child then strip rest'
                else stripComments child :: strip rest'
            end) childNodes)
  | _ => node
  end.

(** The children [rest] without the comments among and below them. *)
Fixpoint stripChildren (rest : list Node) : list Node :=
  match rest with
  | [] => []
  | child :: rest' =>
      if isComment child then stripChildren rest'
      else stripComments child :: stripChildren rest'
  end.

(** No element of the tree is a link or an image. *)
Inductive NoLinkOrImage : Node -> Prop :=
| plain_text textContent : NoLinkOrImage (Text textContent)
| plain_comment data : NoLinkOrImage (Comment data)
| plain_element tagName attributes childNodes :
    tagName <> "A" -> tagName <> "IMG" ->
    Forall NoLinkOrImage childNodes ->
    NoLinkOrImage (Element tagName attributes childNodes).

(** One of the four characters of markup that [escapeHtml] removes. *)
Definition isMarkupChar (c : ascii) : bool :=
  Ascii.eqb c "<" || Ascii.eqb c ">" || Ascii.eqb c "034" || Ascii.eqb c "'".

(** The tag names the switch of the parser has a case for. *)
Definition knownTags : list string :=
  ["B"; "STRONG"; "I"; "EM"; "H1"; "H2"; "H3"; "H4"; "H5"; "H6"; "DIV"; "P";
   "BR"; "UL"; "OL"; "LI"; "HR"; "A"; "IMG"].

(** A list item with the given attributes and children. *)
Definition listItem (it : gmap string string * list Node) : Node :=
  Element "LI" (fst it) (snd it).

(** The markdown of the children of a list item. *)
Definition itemContent (it : gmap string string * list Node) : string :=
  concatChildren {| parentTagName := "LI"; parentChildNodes := snd it |} 0 (snd it).

(** The lines of the items, numbered from [n] on. *)
Fixpoint numberedLines (n : nat) (items : list (gmap string string * list Node))
  : string :=
  match items with
  | [] => EmptyString
  | it :: items' =>
      ofNat n +:+ ". " +:+ itemContent it +:+ LF +:+ numberedLines (S n) items'
  end.

(** The lines of the items, each after a hyphen. *)
Fixpoint bulletLines (items : list (gmap string string * list Node)) : string :=
  match items with
  | [] => EmptyString
  | it :: items' => "- " +:+ itemContent it +:+ LF +:+ bulletLines items'
  end.

(** * Properties *)

(** ** Strings *)

Section StringFacts.

Lemma append_empty_r (s : string) : s +:+ EmptyString = s.
Proof. induction s as [|c s IH]; simpl; [reflexivity | now rewrite IH]. Qed.

Lemma append_assoc (a b c : string) : (a +:+ b) +:+ c = a +:+ (b +:+ c).
Proof. induction a as [|x a IH]; simpl; [reflexivity | now rewrite IH]. Qed.

Lemma length_append (a b : string) :
  String.length (a +:+ b) = String.length a + String.length b.
Proof. induction a as [|x a IH]; simpl; [reflexivity | now rewrite IH]. Qed.

Lemma replace_append (c : ascii) (by_ a b : string) :
  replace c by_ (a +:+ b) = replace c by_ a +:+ replace c by_ b.
Proof.
  induction a as [|x a IH]; simpl; [reflexivity|].
  destruct (Ascii.eqb x c); simpl; rewrite IH; [|reflexivity].
  now rewrite append_assoc.
Qed.

Lemma replace_as_flatMap (c : ascii) (by_ s : string) :
  replace c by_ s
  = flatMapChars (fun x => if Ascii.eqb x c then by_ else String x EmptyString) s.
Proof.
  induction s as [|x s IH]; simpl; [reflexivity|].
  rewrite IH. now destruct (Ascii.eqb x c).
Qed.

Lemma replace_flatMap (c : ascii) (by_ : string) (f : ascii -> string) (s : string) :
  replace c by_ (flatMapChars f s)
  = flatMapChars (fun x => replace c by_ (f x)) s.
Proof.
  induction s as [|x s IH]; simpl; [reflexivity|].
  now rewrite replace_append, IH.
Qed.

Lemma flatMapChars_ext (f g : ascii -> string) (s : string) :
  (forall c, f c = g c) -> flatMapChars f s = flatMapChars g s.
Proof.
  intros Hfg. induction s as [|x s IH]; simpl; [reflexivity|].
  now rewrite Hfg, IH.
Qed.

Lemma includes_append (a b : string) (c : ascii) :
  includes (a +:+ b) c = includes a c || includes b c.
Proof.
  induction a as [|x a IH]; simpl; [reflexivity|].
  rewrite IH. now rewrite orb_assoc.
Qed.

Lemma includes_flatMap_false (f : ascii -> string) (c : ascii) (s : string) :
  (forall x, includes (f x) c = false) -> includes (flatMapChars f s) c = false.
Proof.
  intros Hf. induction s as [|x s IH]; simpl; [reflexivity|].
  now rewrite includes_append, Hf, IH.
Qed.

End StringFacts.

(** A statement about every character is settled on the 256 of them. *)
Ltac each_char c :=
  destruct c as [[] [] [] [] [] [] [] []]; vm_compute; try reflexivity; try congruence.

(** ** escapeHtml *)

Section EscapeHtml.

Lemma escape_passes_pointwise (c : ascii) :
  replace "'" "&#039;"
    (replace "034" "&quot;"
      (replace ">" "&gt;"
        (replace "<" "&lt;"
          (if Ascii.eqb c "&" then "&amp;" else String c EmptyString))))
  = entityOf c.
Proof. each_char c. Qed.

Lemma escapeHtml_flatMap (text : string) :
  escapeHtml text = flatMapChars entityOf text.
Proof.
  destruct text as [|c text]; [reflexivity|].
  unfold escapeHtml. cbn [truthy negb].
  rewrite (replace_as_flatMap "&"), !replace_flatMap.
  apply flatMapChars_ext, escape_passes_pointwise.
Qed.

Lemma entityOf_unescaped (c : ascii) :
  isEscaped c = false -> entityOf c = String c EmptyString.
Proof. each_char c. Qed.

Lemma entityOf_has_amp (c : ascii) :
  isEscaped c = true -> includes (entityOf c) "&" = true.
Proof. each_char c. Qed.

Lemma entityOf_longer (c : ascii) :
  isEscaped c = true -> 1 < String.length (entityOf c).
Proof. each_char c; lia. Qed.

Lemma entityOf_nonempty (c : ascii) : 1 <= String.length (entityOf c).
Proof. each_char c; lia. Qed.

Lemma entityOf_no_markup (c x : ascii) :
  isEscaped x = true -> x <> "&"%char -> includes (entityOf c) x = false.
Proof.
  intros Hx Hamp.
  assert (Hcases : x = "&"%char \/ x = "<"%char \/ x = ">"%char
                   \/ x = "034"%char \/ x = "'"%char).
  { unfold isEscaped in Hx.
    repeat (apply orb_prop in Hx; destruct Hx as [Hx|Hx]);
      apply Ascii.eqb_eq in Hx; auto 6. }
  destruct Hcases as [->|[->|[->|[->| ->]]]]; [congruence| each_char c ..].
Qed.

End EscapeHtml.

Section EscapeHtmlClaims.

Lemma escaped_gives_amp (s : string) :
  needsEscape s = true -> includes (flatMapChars entityOf s) "&" = true.
Proof.
  induction s as [|c s IH]; simpl; [discriminate|].
  intros H. rewrite includes_append.
  destruct (isEscaped c) eqn:Hc.
  - now rewrite entityOf_has_amp.
  - rewrite IH by exact H. apply orb_true_r.
Qed.

Lemma amp_needs_escape (s : string) :
  includes s "&" = true -> needsEscape s = true.
Proof.
  induction s as [|c s IH]; simpl; [discriminate|].
  intros H. apply orb_prop in H. destruct H as [H|H].
  - apply Ascii.eqb_eq in H. now subst c.
  - rewrite IH by exact H. apply orb_true_r.
Qed.

Lemma flatMap_entity_length (s : string) :
  String.length s <= String.length (flatMapChars entityOf s).
Proof.
  induction s as [|c s IH]; simpl; [lia|].
  rewrite length_append. pose proof (entityOf_nonempty c). lia.
Qed.

Lemma flatMap_entity_grows (s : string) :
  needsEscape s = true ->
  String.length s < String.length (flatMapChars entityOf s).
Proof.
  induction s as [|c s IH]; simpl; [discriminate|].
  intros H. rewrite length_append.
  destruct (isEscaped c) eqn:Hc.
  - pose proof (entityOf_longer c Hc). pose proof (flatMap_entity_length s). lia.
  - pose proof (entityOf_nonempty c). specialize (IH H). lia.
Qed.

(** C6: [escapeHtml] is defined on every string, the empty one included,
    and its five passes, the ampersand first, amount to replacing each of
    the characters ampersand, less-than, greater-than, double quote and
    apostrophe by its entity of [entityOf] and leaving every other
    character as it is. *)
Theorem escapeHtml_five_entities :
  escapeHtml EmptyString = EmptyString
  /\ (forall text : string, escapeHtml text = flatMapChars entityOf text)
  /\ (forall c : ascii,
        entityOf c =
          if Ascii.eqb c "&" then "&amp;"
          else if Ascii.eqb c "<" then "&lt;"
          else if Ascii.eqb c ">" then "&gt;"
          else if Ascii.eqb c "034" then "&quot;"
          else if Ascii.eqb c "'" then "&#039;"
          else String c EmptyString).
Proof.
  split; [reflexivity|]. split; [apply escapeHtml_flatMap | reflexivity].
Qed.

(** Were the ampersand replaced after the less-than sign, the entity of
    the latter would be escaped once more. *)
Example ampersand_pass_last_escapes_twice :
  replace "&" "&amp;" (replace "<" "&lt;" "a<b") = "a&amp;lt;b"
  /\ escapeHtml "a<b" = "a&lt;b".
Proof. split; reflexivity. Qed.

(** C8: [escapeHtml] is not idempotent: applied to a text that holds one
    of the five characters, for one the ampersand alone, a second pass
    changes the result of the first, since it escapes the ampersand of
    the entities once more. *)
Theorem escapeHtml_not_idempotent :
  (exists t : string, escapeHtml (escapeHtml t) <> escapeHtml t)
  /\ (forall t : string,
        needsEscape t = true -> escapeHtml (escapeHtml t) <> escapeHtml t).
Proof.
  assert (Hall : forall t : string,
             needsEscape t = true -> escapeHtml (escapeHtml t) <> escapeHtml t).
  { intros t Ht Heq. rewrite !escapeHtml_flatMap in Heq.
    pose proof (escaped_gives_amp t Ht) as Hamp.
    apply amp_needs_escape, flatMap_entity_grows in Hamp.
    rewrite Heq in Hamp. lia. }
  split; [|exact Hall].
  exists "&". now apply Hall.
Qed.

Lemma escapeHtml_not_idempotent_witness :
  needsEscape "&" = true /\ escapeHtml (escapeHtml "&") <> escapeHtml "&".
Proof.
  split; [reflexivity|].
  apply (proj2 escapeHtml_not_idempotent "&"). reflexivity.
Defined.

(** C9: the result of [escapeHtml] holds no less-than sign, no
    greater-than sign, no double quote and no apostrophe. *)
Theorem escapeHtml_no_markup_chars (text : string) :
  includes (escapeHtml text) "<" = false
  /\ includes (escapeHtml text) ">" = false
  /\ includes (escapeHtml text) "034" = false
  /\ includes (escapeHtml text) "'" = false.
Proof.
  rewrite escapeHtml_flatMap.
  repeat split; apply includes_flatMap_false; intros x;
    apply entityOf_no_markup; (reflexivity || discriminate).
Qed.

End EscapeHtmlClaims.

(** ** enforceHttps *)

Section EnforceHttps.

Variable messages : Messages.

Lemma trimStart_blank (s : string) : isBlank s = true -> trimStart s = EmptyString.
Proof.
  induction s as [|c s IH]; simpl; [reflexivity|].
  intros H. apply andb_prop in H. destruct H as [Hc Hs].
  rewrite Hc. now apply IH.
Qed.

Lemma trim_blank (s : string) : isBlank s = true -> trim s = EmptyString.
Proof. intros H. unfold trim. now rewrite trimStart_blank. Qed.

Lemma startsWith_split (s p : string) :
  startsWith s p = true <-> exists rest, s = p +:+ rest.
Proof.
  revert s. induction p as [|x p IH]; intros s; simpl.
  - split; [intros _; now exists s | reflexivity].
  - destruct s as [|c s].
    + split; [discriminate | intros [rest H]; discriminate].
    + split.
      * intros H. apply andb_prop in H. destruct H as [Hc Hs].
        apply Ascii.eqb_eq in Hc. subst x.
        apply IH in Hs. destruct Hs as [rest ->]. now exists rest.
      * intros [rest H]. injection H as -> ->.
        rewrite Ascii.eqb_refl. apply IH. now exists rest.
Qed.

Lemma skipSchemeChars_split (s : string) :
  exists scheme, s = scheme +:+ skipSchemeChars s /\ allSchemeChars scheme = true.
Proof.
  induction s as [|c s [scheme [Hs Hall]]]; [now exists EmptyString|].
  simpl. destruct (isSchemeChar c) eqn:Hc.
  - exists (String c scheme). simpl. rewrite Hc, Hall. now rewrite <- Hs.
  - now exists EmptyString.
Qed.

Lemma skipSchemeChars_scheme (scheme rest : string) :
  allSchemeChars scheme = true ->
  skipSchemeChars (scheme +:+ "://" +:+ rest) = "://" +:+ rest.
Proof.
  induction scheme as [|c scheme IH]; simpl; [reflexivity|].
  intros H. apply andb_prop in H. destruct H as [Hc Hall].
  rewrite Hc. now apply IH.
Qed.

(** The test is that of the pattern: the text begins with one or more
    letters, digits, hyphens or dots, followed by a colon and two
    slashes. *)
Lemma schemePattern_test_spec (url : string) :
  schemePattern_test url = true <->
  exists scheme rest,
    url = scheme +:+ "://" +:+ rest
    /\ scheme <> EmptyString /\ allSchemeChars scheme = true.
Proof.
  split.
  - destruct url as [|c url]; [discriminate|].
    unfold schemePattern_test. intros H.
    apply andb_prop in H. destruct H as [Hc Hsw].
    cbn [skipSchemeChars] in Hsw. rewrite Hc in Hsw.
    apply startsWith_split in Hsw. destruct Hsw as [rest Hrest].
    destruct (skipSchemeChars_split url) as [scheme [Hurl Hall]].
    exists (String c scheme), rest. split; [|split].
    + rewrite Hurl at 1. now rewrite Hrest.
    + discriminate.
    + cbn [allSchemeChars]. now rewrite Hc, Hall.
  - intros (scheme & rest & -> & Hne & Hall).
    destruct scheme as [|c scheme]; [congruence|].
    unfold schemePattern_test.
    change (String c scheme +:+ "://" +:+ rest)
      with (String c (scheme +:+ "://" +:+ rest)) at 1.
    rewrite skipSchemeChars_scheme by exact Hall.
    simpl in Hall. apply andb_prop in Hall. destruct Hall as [-> _].
    reflexivity.
Qed.

(** The branches of [enforceHttps] on a non-empty input, by the three
    tests on the trimmed text. *)
Lemma enforceHttps_branches (inputUrl : string) :
  truthy inputUrl = true ->
  enforceHttps inputUrl messages =
    let url := trim inputUrl in
    if startsWith (toLowerCase url) "https://" then
      {| alerted := []; returned := Some url |}
    else if startsWith (toLowerCase url) "http://" then
      {| alerted := [httpsRequired messages]; returned := None |}
    else if schemePattern_test url then
      {| alerted := [invalidProtocol messages]; returned := None |}
    else {| alerted := []; returned := Some ("https://" +:+ url) |}.
Proof. intros H. unfold enforceHttps. now rewrite H. Qed.

(** C1: what the code does with a script URL.  The scheme pattern asks
    for two slashes after the colon, so [javascript:alert(1)] is not
    rejected: no message is shown and the text comes back with the
    https prefix put before it; [data:] and [vbscript:] URLs fare the
    same.  A scheme that is followed by the two slashes is rejected with
    the [invalidProtocol] message. *)
Theorem enforceHttps_javascript_prefixed :
  enforceHttps "javascript:alert(1)" messages
    = {| alerted := []; returned := Some "https://javascript:alert(1)" |}
  /\ enforceHttps "data:text/html,x" messages
    = {| alerted := []; returned := Some "https://data:text/html,x" |}
  /\ enforceHttps "vbscript:msgbox(1)" messages
    = {| alerted := []; returned := Some "https://vbscript:msgbox(1)" |}
  /\ enforceHttps "ftp://example.com" messages
    = {| alerted := [invalidProtocol messages]; returned := None |}.
Proof. repeat split. Qed.

(** C2: the empty input is rejected without a message, but an input of
    white space alone is not: the emptiness test runs before the
    trimming, so such an input is accepted as the bare https prefix. *)
Theorem enforceHttps_blank_input (inputUrl : string) :
  enforceHttps EmptyString messages = {| alerted := []; returned := None |}
  /\ (truthy inputUrl = true -> isBlank inputUrl = true ->
      enforceHttps inputUrl messages
        = {| alerted := []; returned := Some "https://" |}).
Proof.
  split; [reflexivity|]. intros Hne Hblank.
  rewrite enforceHttps_branches by exact Hne.
  now rewrite trim_blank.
Qed.

(** C5: [enforceHttps] returns null or a text that begins, whatever the
    case of its letters, with the https prefix: a trimmed input that has
    the prefix comes back as it is, one that has neither the https nor
    the http prefix nor a scheme comes back with the prefix put before
    it, and [example.com] becomes [https://example.com]. *)
Theorem enforceHttps_returns_https (inputUrl : string) :
  (returned (enforceHttps inputUrl messages) = None
   \/ exists url, returned (enforceHttps inputUrl messages) = Some url
                  /\ startsWith (toLowerCase url) "https://" = true)
  /\ (startsWith (toLowerCase (trim inputUrl)) "https://" = true ->
      enforceHttps inputUrl messages
        = {| alerted := []; returned := Some (trim inputUrl) |})
  /\ (truthy inputUrl = true ->
      startsWith (toLowerCase (trim inputUrl)) "https://" = false ->
      startsWith (toLowerCase (trim inputUrl)) "http://" = false ->
      schemePattern_test (trim inputUrl) = false ->
      enforceHttps inputUrl messages
        = {| alerted := []; returned := Some ("https://" +:+ trim inputUrl) |})
  /\ enforceHttps "example.com" messages
       = {| alerted := []; returned := Some "https://example.com" |}.
Proof.
  split; [|split; [|split; [|reflexivity]]].
  - destruct (truthy inputUrl) eqn:Hne.
    + rewrite enforceHttps_branches by exact Hne. cbv zeta.
      destruct (startsWith (toLowerCase (trim inputUrl)) "https://") eqn:Hs.
      { right. now exists (trim inputUrl). }
      destruct (startsWith (toLowerCase (trim inputUrl)) "http://");
        [now left|].
      destruct (schemePattern_test (trim inputUrl)); [now left|].
      right. now exists ("https://" +:+ trim inputUrl).
    + left. unfold enforceHttps. now rewrite Hne.
  - intros Hs. destruct inputUrl as [|c s]; [discriminate|].
    rewrite enforceHttps_branches by reflexivity. cbv zeta. now rewrite Hs.
  - intros Hne H1 H2 H3.
    rewrite enforceHttps_branches by exact Hne. cbv zeta.
    now rewrite H1, H2, H3.
Qed.

End EnforceHttps.

Lemma enforceHttps_blank_input_witness :
  truthy " " = true /\ isBlank " " = true
  /\ enforceHttps " " DEFAULT_ALERTS = {| alerted := []; returned := Some "https://" |}.
Proof.
  split; [reflexivity|]. split; [reflexivity|].
  apply (proj2 (enforceHttps_blank_input DEFAULT_ALERTS " ")); reflexivity.
Defined.

Lemma enforceHttps_returns_https_witness :
  enforceHttps "  HTTPS://Example.com/a " DEFAULT_ALERTS
    = {| alerted := []; returned := Some "HTTPS://Example.com/a" |}
  /\ enforceHttps " example.com/a:b" DEFAULT_ALERTS
    = {| alerted := []; returned := Some "https://example.com/a:b" |}.
Proof.
  split.
  - apply (proj1 (proj2 (enforceHttps_returns_https DEFAULT_ALERTS
                           "  HTTPS://Example.com/a "))).
    reflexivity.
  - apply (proj1 (proj2 (proj2 (enforceHttps_returns_https DEFAULT_ALERTS
                                  " example.com/a:b")))); reflexivity.
Defined.

(** ** parseToMd *)

Section NodeInduction.

Variable P : Node -> Prop.
Hypothesis HText : forall textContent, P (Text textContent).
Hypothesis HComment : forall data, P (Comment data).
Hypothesis HElement :
  forall tagName attributes childNodes,
    Forall P childNodes -> P (Element tagName attributes childNodes).

(** Induction on a node with the hypothesis for every child. *)
Lemma Node_tree_ind (node : Node) : P node.
Proof.
  revert node. fix IH 1. intros [textContent|data|tagName attributes childNodes].
  - apply HText.
  - apply HComment.
  - apply HElement. induction childNodes as [|child rest IHrest].
    + constructor.
    + constructor; [apply IH | exact IHrest].
Qed.

End NodeInduction.

Section ParseToMd.

Lemma parseToMd_element slot tagName attributes childNodes :
  parseToMd slot (Element tagName attributes childNodes) =
    (content ← forEachChild
                 {| parentTagName := tagName; parentChildNodes := childNodes |}
                 0 childNodes EmptyString;
     render slot tagName attributes content).
Proof. reflexivity. Qed.

Lemma render_list_item slot attributes content :
  render slot "LI" attributes content =
    match slot with
    | None => Throw_TypeError
    | Some here =>
        Return ((if bool_decide (parentTagName (parentElement here) = "OL")
                 then ofNat (indexOfNode here + 1) +:+ ". " else "- ")
                +:+ content +:+ LF)
    end.
Proof. reflexivity. Qed.

Lemma render_returns slot tagName attributes content :
  (tagName = "LI" -> is_Some slot) ->
  exists md, render slot tagName attributes content = Return md.
Proof.
  intros Hli. destruct slot as [here|].
  - unfold render. repeat (case_match; eauto).
  - destruct (decide (tagName = "LI")) as [->|Hne].
    + destruct (Hli eq_refl) as [? ?]. discriminate.
    + unfold render. repeat (case_match; eauto).
      match goal with
      | H : bool_decide (tagName = "LI") = true |- _ =>
          apply bool_decide_eq_true in H; contradiction
      end.
Qed.

Lemma render_throws slot tagName attributes content :
  render slot tagName attributes content = Throw_TypeError ->
  slot = None /\ tagName = "LI".
Proof.
  intros Hthrow. destruct slot as [here|].
  - destruct (render_returns (Some here) tagName attributes content) as [md Hmd];
      [intros _; eauto | congruence].
  - split; [reflexivity|].
    destruct (decide (tagName = "LI")) as [->|Hne]; [reflexivity|].
    destruct (render_returns None tagName attributes content) as [md Hmd];
      [intros; contradiction | congruence].
Qed.

(** The loop returns what its children return, in document order, as
    long as none of them throws. *)
Lemma forEachChild_concat self (rest : list Node) :
  Forall (fun child => forall here, exists md, parseToMd (Some here) child = Return md) rest ->
  forall i content,
    forEachChild self i rest content
    = Return (content +:+ concatChildren self i rest).
Proof.
  induction 1 as [|child rest Hchild _ IH]; intros i content.
  - cbn [forEachChild concatChildren]. now rewrite append_empty_r.
  - cbn [forEachChild concatChildren]. unfold markdownOf.
    destruct (Hchild {| parentElement := self; position := i |}) as [md ->].
    cbn. rewrite IH. now rewrite append_assoc.
Qed.

(** A node that hangs under a parent element never throws. *)
Lemma parseToMd_child_returns (node : Node) :
  forall here, exists md, parseToMd (Some here) node = Return md.
Proof.
  induction node as [textContent|data|tagName attributes childNodes IH]
    using Node_tree_ind; intros here.
  - now eexists.
  - now eexists.
  - rewrite parseToMd_element, (forEachChild_concat _ _ IH). cbn.
    apply render_returns. intros _. eauto.
Qed.

Lemma forEachChild_returns self i (rest : list Node) content :
  forEachChild self i rest content = Return (content +:+ concatChildren self i rest).
Proof.
  apply forEachChild_concat, Forall_forall.
  intros child _. apply parseToMd_child_returns.
Qed.

(** The markdown of an element is the markup of its tag around the
    markdown of its children. *)
Lemma parseToMd_element_render slot tagName attributes childNodes :
  parseToMd slot (Element tagName attributes childNodes) =
    render slot tagName attributes
      (concatChildren {| parentTagName := tagName; parentChildNodes := childNodes |}
         0 childNodes).
Proof. now rewrite parseToMd_element, forEachChild_returns. Qed.

Lemma filter_take_lookup (nodes : list Node) (pos : nat) (node : Node) :
  nodes !! pos = Some node ->
  isElement node = true ->
  filter (fun n => isElement n = true) nodes
    !! length (filter (fun n => isElement n = true) (take pos nodes))
  = Some node.
Proof.
  revert pos. induction nodes as [|n nodes IH]; intros pos Hat Hel.
  - now rewrite lookup_nil in Hat.
  - destruct pos as [|pos].
    + injection Hat as ->. rewrite take_0, filter_nil.
      now rewrite filter_cons_True by exact Hel.
    + change (nodes !! pos = Some node) in Hat.
      change (take (S pos) (n :: nodes)) with (n :: take pos nodes).
      rewrite !filter_cons.
      destruct (decide (isElement n = true)); [|now apply IH].
      change (filter (fun n0 => isElement n0 = true) nodes
                !! length (filter (fun n0 => isElement n0 = true) (take pos nodes))
              = Some node).
      now apply IH.
Qed.

(** The node of a slot is found in [parent.children] at [indexOfNode]. *)
Lemma children_at_indexOfNode (here : Slot) (node : Node) :
  parentChildNodes (parentElement here) !! position here = Some node ->
  isElement node = true ->
  children (parentElement here) !! indexOfNode here = Some node.
Proof. apply filter_take_lookup. Qed.

End ParseToMd.

Section ParseToMdClaims.

Lemma listItemsParented_element slot tagName attributes childNodes :
  listItemsParented slot (Element tagName attributes childNodes)
  = ((tagName = "LI" -> is_Some slot)
     /\ eachChildParented
          {| parentTagName := tagName; parentChildNodes := childNodes |}
          0 childNodes).
Proof. reflexivity. Qed.

(** Below an element every list item has a parent. *)
Lemma listItemsParented_child (node : Node) :
  forall here, listItemsParented (Some here) node.
Proof.
  induction node as [textContent|data|tagName attributes childNodes IH]
    using Node_tree_ind; intros here; [exact I | exact I |].
  rewrite listItemsParented_element. split; [intros _; eauto|].
  generalize 0 at 1.
  generalize {| parentTagName := tagName; parentChildNodes := childNodes |}.
  induction IH as [|child rest Hchild _ IHrest]; intros self i; cbn; [exact I|].
  split; [apply Hchild | apply IHrest].
Qed.

Lemma listItemsParented_root slot node :
  listItemsParented slot node <-> (isListItem node = true -> is_Some slot).
Proof.
  destruct node as [textContent|data|tagName attributes childNodes];
    [cbn; split; [discriminate | trivial] .. |].
  rewrite listItemsParented_element. cbn [isListItem]. split.
  - intros [Hroot _] Hli. apply Hroot. now apply bool_decide_eq_true in Hli.
  - intros Hroot. split.
    + intros ->. now apply Hroot.
    + generalize 0.
      generalize {| parentTagName := tagName; parentChildNodes := childNodes |}.
      induction childNodes as [|child rest IH]; intros self i; cbn; [exact I|].
      split; [apply listItemsParented_child | apply IH].
Qed.

(** C10: a list item without a parent element makes [parseToMd] throw,
    where the parser reads the tag name of the parent; when every list
    item of the tree has a parent element the parser returns a string,
    and it returns one in that case only. *)
Theorem parseToMd_total_iff_items_parented :
  (forall attributes childNodes,
      parseToMd None (Element "LI" attributes childNodes) = Throw_TypeError)
  /\ (forall slot node,
        listItemsParented slot node -> exists md, parseToMd slot node = Return md)
  /\ (forall slot node md,
        parseToMd slot node = Return md -> listItemsParented slot node).
Proof.
  split; [|split].
  - intros attributes childNodes. now rewrite parseToMd_element_render.
  - intros slot node Hall.
    pose proof (proj1 (listItemsParented_root slot node) Hall) as Hroot.
    destruct node as [textContent|data|tagName attributes childNodes];
      [now eexists | now eexists |].
    rewrite parseToMd_element_render. apply render_returns.
    intros ->. now apply Hroot.
  - intros slot node md Hmd. apply listItemsParented_root. intros Hli.
    destruct node as [textContent|data|tagName attributes childNodes];
      [discriminate Hli ..|].
    cbn in Hli. apply bool_decide_eq_true in Hli. subst tagName.
    rewrite parseToMd_element_render, render_list_item in Hmd.
    destruct slot; [eauto | discriminate].
Qed.

Lemma parseToMd_total_iff_items_parented_witness :
  listItemsParented None ol_a_b
  /\ exists md, parseToMd None ol_a_b = Return md.
Proof.
  assert (H : listItemsParented None ol_a_b).
  { cbn. repeat split; (discriminate || eauto). }
  split; [exact H|].
  exact (proj1 (proj2 parseToMd_total_iff_items_parented) None ol_a_b H).
Defined.

End ParseToMdClaims.

Section ListItemAndImageClaims.

(** C4 (as the code has it): the ordered list of the items [a] and [b]
    gives the lines [1. a] and [2. b] and a line feed; a list item under
    a parent gives its prefix, its content and a line feed, where the
    prefix under an [OL] parent is one more than the number of element
    children of the parent before the item (child nodes that are not
    elements are not counted), a dot and a space, and under any other
    parent a hyphen and a space; the item is the element found at that
    index of [parent.children]. *)
Theorem parseToMd_list_item :
  (forall slot,
      parseToMd slot ol_a_b = Return ("1. a" +:+ LF +:+ "2. b" +:+ LF +:+ LF))
  /\ (forall here attributes childNodes,
        parseToMd (Some here) (Element "LI" attributes childNodes)
        = Return
            ((if bool_decide (parentTagName (parentElement here) = "OL")
              then ofNat (indexOfNode here + 1) +:+ ". "
              else "- ")
             +:+ concatChildren
                   {| parentTagName := "LI"; parentChildNodes := childNodes |}
                   0 childNodes
             +:+ LF))
  /\ (forall here node,
        parentChildNodes (parentElement here) !! position here = Some node ->
        isElement node = true ->
        children (parentElement here) !! indexOfNode here = Some node).
Proof.
  split; [|split].
  - intros slot. reflexivity.
  - intros here attributes childNodes.
    now rewrite parseToMd_element_render, render_list_item.
  - apply children_at_indexOfNode.
Qed.

Lemma parseToMd_list_item_witness :
  let here := {| parentElement :=
                   {| parentTagName := "OL";
                      parentChildNodes := [Text "x"; item "a"; Comment "c"; item "b"] |};
                 position := 3 |} in
  children (parentElement here) !! 1 = Some (item "b")
  /\ parseToMd (Some here) (item "b") = Return ("2. b" +:+ LF).
Proof.
  intros here. split.
  - apply (proj2 (proj2 parseToMd_list_item) here (item "b")); reflexivity.
  - apply (proj1 (proj2 parseToMd_list_item) here ∅ [Text "b"]).
Defined.

(** An item that is the second child of its ordered list, after a text
    node, is numbered one, not two. *)
Lemma ol_text_then_item_numbered_one :
  [Text "x"; item "a"] !! 1 = Some (item "a")
  /\ parseToMd None ol_text_then_item = Return ("x1. a" +:+ LF +:+ LF)
  /\ parseToMd None ol_text_then_item <> Return ("x2. a" +:+ LF +:+ LF).
Proof.
  split; [reflexivity|].
  assert (H : parseToMd None ol_text_then_item = Return ("x1. a" +:+ LF +:+ LF))
    by reflexivity.
  split; [exact H|]. rewrite H. discriminate.
Qed.

(** C3 (as the code has it): an image gives the raw tag when it has a
    width attribute whose value is not empty, and the markdown form when
    it has no width attribute or an empty one; the alt text and the
    source have no part in the choice, and the two forms never
    coincide. *)
Theorem parseToMd_image slot attributes childNodes :
  parseToMd slot (Element "IMG" attributes childNodes)
    = Return
        (let src := interpolate (getAttribute attributes "src") in
         let alt := attributeOrEmpty attributes "alt" in
         match getAttribute attributes "width" with
         | Some width =>
             if truthy width then rawImage src alt width
             else markdownImage alt src
         | None => markdownImage alt src
         end)
  /\ (forall src alt width alt' src' : string,
        rawImage src alt width <> markdownImage alt' src').
Proof.
  split.
  - rewrite parseToMd_element_render.
    unfold render, getAttribute, attributeOrEmpty.
    destruct (attributes !! "alt") as [[|a alt]|];
      destruct (attributes !! "src") as [src|];
      destruct (attributes !! "width") as [[|w width]|]; reflexivity.
  - intros src alt width alt' src'. unfold rawImage, markdownImage. cbn.
    discriminate.
Qed.

(** An image whose width attribute is present and empty is written in
    the markdown form. *)
Lemma image_empty_width_is_markdown :
  getAttribute (image_attributes EmptyString) "width" = Some EmptyString
  /\ parseToMd None (Element "IMG" (image_attributes EmptyString) [])
     = Return (markdownImage "logo" "https://x/y.png")
  /\ parseToMd None (Element "IMG" (image_attributes EmptyString) [])
     <> Return (rawImage "https://x/y.png" "logo" EmptyString).
Proof.
  split; [reflexivity|].
  assert (H : parseToMd None (Element "IMG" (image_attributes EmptyString) [])
              = Return (markdownImage "logo" "https://x/y.png"))
    by reflexivity.
  split; [exact H|]. rewrite H. intros Heq. injection Heq as Heq.
  unfold rawImage, markdownImage in Heq. cbn in Heq. discriminate Heq.
Qed.

(** The image of the specification, with a width of 200 pixels. *)
Example image_with_width_is_raw :
  parseToMd None (Element "IMG" (image_attributes "200px") [])
  = Return (rawImage "https://x/y.png" "logo" "200px").
Proof. reflexivity. Qed.

End ListItemAndImageClaims.

(** * Further properties of the code *)

(** ** escapeHtml *)

Section EscapeHtmlFurther.

Lemma flatMapChars_append (f : ascii -> string) (a b : string) :
  flatMapChars f (a +:+ b) = flatMapChars f a +:+ flatMapChars f b.
Proof.
  induction a as [|x a IH]; simpl; [reflexivity|].
  now rewrite IH, append_assoc.
Qed.

Lemma append_cancel_l (a b c : string) : a +:+ b = a +:+ c -> b = c.
Proof.
  induction a as [|x a IH]; simpl; [trivial|].
  intros H. injection H as H. now apply IH.
Qed.

Lemma firstEscaped_entity (c : ascii) (rest : string) :
  firstEscaped (entityOf c +:+ rest) = Some c.
Proof. each_char c. Qed.

Lemma flatMap_entity_inj (a : string) :
  forall b, flatMapChars entityOf a = flatMapChars entityOf b -> a = b.
Proof.
  induction a as [|x a IH]; intros [|y b] H.
  - reflexivity.
  - apply (f_equal String.length) in H. simpl in H.
    rewrite length_append in H. pose proof (entityOf_nonempty y). lia.
  - apply (f_equal String.length) in H. simpl in H.
    rewrite length_append in H. pose proof (entityOf_nonempty x). lia.
  - simpl in H.
    assert (Hxy : x = y).
    { apply (f_equal firstEscaped) in H.
      rewrite !firstEscaped_entity in H. congruence. }
    subst y. apply append_cancel_l in H. now rewrite (IH b H).
Qed.

Lemma flatMap_entity_plain (s : string) :
  needsEscape s = false -> flatMapChars entityOf s = s.
Proof.
  induction s as [|c s IH]; simpl; [reflexivity|].
  intros H. apply orb_false_elim in H. destruct H as [Hc Hs].
  now rewrite (entityOf_unescaped c Hc), IH.
Qed.

(** X1: escaping a concatenation is concatenating the escaped parts, so a
    text gives the same markdown whether it sits in one text node or is
    split over several. *)
Theorem escapeHtml_append (a b : string) :
  escapeHtml (a +:+ b) = escapeHtml a +:+ escapeHtml b.
Proof. rewrite !escapeHtml_flatMap. apply flatMapChars_append. Qed.

(** X2: [escapeHtml] loses nothing: two texts with the same escaped form
    are the same text. *)
Theorem escapeHtml_injective (a b : string) :
  escapeHtml a = escapeHtml b -> a = b.
Proof. rewrite !escapeHtml_flatMap. apply flatMap_entity_inj. Qed.

Lemma escapeHtml_injective_witness :
  escapeHtml "a<b" = escapeHtml ("a" +:+ "<b") /\ "a<b" = "a" +:+ "<b".
Proof.
  split; [reflexivity|].
  apply (escapeHtml_injective "a<b" ("a" +:+ "<b")). reflexivity.
Defined.

(** X3: [escapeHtml] leaves a text as it is exactly when the text holds
    none of the five characters. *)
Theorem escapeHtml_identity_iff (text : string) :
  escapeHtml text = text <-> needsEscape text = false.
Proof.
  rewrite escapeHtml_flatMap. split.
  - intros Heq. destruct (needsEscape text) eqn:Hne; [|reflexivity].
    pose proof (flatMap_entity_grows text Hne) as Hlt.
    rewrite Heq in Hlt. lia.
  - apply flatMap_entity_plain.
Qed.

End EscapeHtmlFurther.

(** ** Trimming *)

Section TrimFacts.

Lemma trimEnd_cons (c : ascii) (s : string) :
  trimEnd (String c s) =
    match trimEnd s with
    | EmptyString => if isWhiteSpace c then EmptyString else String c EmptyString
    | r => String c r
    end.
Proof. reflexivity. Qed.

Lemma trimEnd_nonws (c : ascii) (s : string) :
  isWhiteSpace c = false -> trimEnd (String c s) = String c (trimEnd s).
Proof. intros Hc. rewrite trimEnd_cons, Hc. now destruct (trimEnd s). Qed.

Lemma trimEnd_idem (s : string) : trimEnd (trimEnd s) = trimEnd s.
Proof.
  induction s as [|c s IH]; [reflexivity|].
  rewrite (trimEnd_cons c s). destruct (trimEnd s) as [|a r] eqn:E.
  - destruct (isWhiteSpace c) eqn:Hc; [reflexivity|].
    now rewrite trimEnd_nonws.
  - now rewrite trimEnd_cons, IH.
Qed.

Lemma trimEnd_blank (b : string) : isBlank b = true -> trimEnd b = EmptyString.
Proof.
  induction b as [|c b IH]; [reflexivity|]. cbn [isBlank]. intros H.
  apply andb_prop in H. destruct H as [Hc Hb].
  now rewrite trimEnd_cons, IH, Hc.
Qed.

Lemma trimEnd_append_blank (t b : string) :
  isBlank b = true -> trimEnd (t +:+ b) = trimEnd t.
Proof.
  intros Hb. induction t as [|c t IH]; [now apply trimEnd_blank|].
  change (String c t +:+ b) with (String c (t +:+ b)).
  now rewrite !trimEnd_cons, IH.
Qed.

Lemma trimStart_head (s : string) :
  trimStart s = EmptyString
  \/ exists c r, trimStart s = String c r /\ isWhiteSpace c = false.
Proof.
  induction s as [|c s IH]; [now left|]. cbn [trimStart].
  destruct (isWhiteSpace c) eqn:Hc; [exact IH|]. right. now exists c, s.
Qed.

Lemma trim_trim (s : string) : trim (trim s) = trim s.
Proof.
  unfold trim. destruct (trimStart_head s) as [->|(c & r & -> & Hc)];
    [reflexivity|].
  rewrite (trimEnd_nonws c r Hc). cbn [trimStart]. rewrite Hc.
  now rewrite trimEnd_nonws, trimEnd_idem.
Qed.

Lemma isBlank_append (a b : string) :
  isBlank (a +:+ b) = isBlank a && isBlank b.
Proof.
  induction a as [|c a IH]; [reflexivity|].
  change (String c a +:+ b) with (String c (a +:+ b)). cbn [isBlank].
  now rewrite IH, andb_assoc.
Qed.

(** White space at the end of a text does not change what is left of it
    after trimming. *)
Lemma trim_append_blank (s b : string) :
  isBlank b = true -> trim (s +:+ b) = trim s.
Proof.
  intros Hb. unfold trim. induction s as [|c s IH].
  - cbn [String.append]. now rewrite trimStart_blank.
  - change (String c s +:+ b) with (String c (s +:+ b)). cbn [trimStart].
    destruct (isWhiteSpace c); [exact IH|].
    change (String c (s +:+ b)) with (String c s +:+ b).
    now apply trimEnd_append_blank.
Qed.

Lemma trim_https_prefixed (s : string) :
  trim ("https://" +:+ trim s) = "https://" +:+ trim s.
Proof.
  unfold trim at 1. cbn [String.append trimStart].
  change (isWhiteSpace "h") with false. cbv iota.
  rewrite !trimEnd_nonws by reflexivity.
  unfold trim. now rewrite trimEnd_idem.
Qed.

Lemma toLowerCase_append (a b : string) :
  toLowerCase (a +:+ b) = toLowerCase a +:+ toLowerCase b.
Proof.
  induction a as [|c a IH]; [reflexivity|].
  change (String c a +:+ b) with (String c (a +:+ b)). cbn [toLowerCase].
  now rewrite IH.
Qed.

Lemma lowerChar_schemeChar (c : ascii) :
  isSchemeChar c = true -> isSchemeChar (lowerChar c) = true.
Proof. each_char c. Qed.

Lemma toLowerCase_schemeChars (s : string) :
  allSchemeChars s = true -> allSchemeChars (toLowerCase s) = true.
Proof.
  induction s as [|c s IH]; [reflexivity|]. cbn [allSchemeChars toLowerCase].
  intros H. apply andb_prop in H. destruct H as [Hc Hs].
  now rewrite lowerChar_schemeChar, IH.
Qed.

End TrimFacts.

(** ** enforceHttps, further *)

Section EnforceHttpsFurther.

Variable messages : Messages.

Lemma http_is_not_https (s : string) :
  startsWith s "http://" = true -> startsWith s "https://" = false.
Proof. intros H. apply startsWith_split in H. now destruct H as [rest ->]. Qed.

Lemma trim_truthy (s : string) : truthy (trim s) = true -> truthy s = true.
Proof. now destruct s. Qed.

(** A run of class characters before the colon of a text is fixed by the
    text. *)
Lemma scheme_prefix_unique (p : string) :
  forall scheme rest,
    allSchemeChars scheme = true -> allSchemeChars p = true ->
    startsWith (scheme +:+ "://" +:+ rest) (p +:+ "://") = true ->
    scheme = p.
Proof.
  induction p as [|x p IH]; intros [|c scheme] rest Hs Hp Hsw.
  - reflexivity.
  - cbn [allSchemeChars] in Hs. cbn [startsWith String.append] in Hsw.
    apply andb_prop in Hs. destruct Hs as [Hc _].
    apply andb_prop in Hsw. destruct Hsw as [Hcolon _].
    apply Ascii.eqb_eq in Hcolon. subst c. discriminate Hc.
  - cbn [allSchemeChars] in Hp. cbn [startsWith String.append] in Hsw.
    apply andb_prop in Hp. destruct Hp as [Hx _].
    apply andb_prop in Hsw. destruct Hsw as [Hcolon _].
    apply Ascii.eqb_eq in Hcolon. subst x. discriminate Hx.
  - cbn [allSchemeChars] in Hs, Hp.
    apply andb_prop in Hs. destruct Hs as [_ Hs].
    apply andb_prop in Hp. destruct Hp as [_ Hp].
    change (startsWith (String c (scheme +:+ "://" +:+ rest))
              (String x (p +:+ "://")) = true) in Hsw.
    cbn [startsWith] in Hsw. apply andb_prop in Hsw. destruct Hsw as [Hcx Hsw].
    apply Ascii.eqb_eq in Hcx. subst x. f_equal. now apply (IH scheme rest).
Qed.

(** X4: a URL whose trimmed text begins with the http prefix, in any case
    of its letters, is refused: the [httpsRequired] message is shown, once,
    and null is returned. *)
Theorem enforceHttps_http_refused (inputUrl : string) :
  startsWith (toLowerCase (trim inputUrl)) "http://" = true ->
  enforceHttps inputUrl messages
    = {| alerted := [httpsRequired messages]; returned := None |}.
Proof.
  intros Hhttp.
  assert (Hne : truthy inputUrl = true).
  { apply trim_truthy. destruct (trim inputUrl); [discriminate Hhttp | reflexivity]. }
  rewrite enforceHttps_branches by exact Hne. cbv zeta.
  now rewrite (http_is_not_https _ Hhttp), Hhttp.
Qed.

(** X5: a URL whose trimmed text is a scheme other than http and https, a
    colon and two slashes, and anything after them, is refused: the
    [invalidProtocol] message is shown, once, and null is returned. *)
Theorem enforceHttps_scheme_refused (inputUrl scheme rest : string) :
  trim inputUrl = scheme +:+ "://" +:+ rest ->
  scheme <> EmptyString ->
  allSchemeChars scheme = true ->
  toLowerCase scheme <> "https" ->
  toLowerCase scheme <> "http" ->
  enforceHttps inputUrl messages
    = {| alerted := [invalidProtocol messages]; returned := None |}.
Proof.
  intros Htrim Hne Hall Hhttps Hhttp.
  assert (Hin : truthy inputUrl = true).
  { apply trim_truthy. rewrite Htrim. destruct scheme; [congruence | reflexivity]. }
  assert (Hlow : toLowerCase (trim inputUrl)
                 = toLowerCase scheme +:+ "://" +:+ toLowerCase rest).
  { now rewrite Htrim, !toLowerCase_append. }
  pose proof (toLowerCase_schemeChars scheme Hall) as Hlall.
  rewrite enforceHttps_branches by exact Hin. cbv zeta. rewrite Hlow.
  destruct (startsWith (toLowerCase scheme +:+ "://" +:+ toLowerCase rest)
              "https://") eqn:E1.
  { exfalso. apply Hhttps.
    now apply (scheme_prefix_unique "https" _ (toLowerCase rest)). }
  destruct (startsWith (toLowerCase scheme +:+ "://" +:+ toLowerCase rest)
              "http://") eqn:E2.
  { exfalso. apply Hhttp.
    now apply (scheme_prefix_unique "http" _ (toLowerCase rest)). }
  assert (Hpat : schemePattern_test (trim inputUrl) = true).
  { apply schemePattern_test_spec. now exists scheme, rest. }
  now rewrite Hpat.
Qed.

(** X6: what [enforceHttps] returns has no white space around it, and
    given back to [enforceHttps] it is returned as it is, without a
    message: an accepted URL stays accepted and unchanged. *)
Theorem enforceHttps_output_stable (inputUrl url : string) :
  returned (enforceHttps inputUrl messages) = Some url ->
  trim url = url
  /\ enforceHttps url messages = {| alerted := []; returned := Some url |}.
Proof.
  intros Hret.
  destruct (truthy inputUrl) eqn:Hne;
    [|unfold enforceHttps in Hret; rewrite Hne in Hret; discriminate].
  rewrite enforceHttps_branches in Hret by exact Hne. cbv zeta in Hret.
  destruct (startsWith (toLowerCase (trim inputUrl)) "https://") eqn:E1.
  - injection Hret as <-. split; [apply trim_trim|].
    assert (Ht : truthy (trim inputUrl) = true)
      by (destruct (trim inputUrl); [discriminate E1 | reflexivity]).
    rewrite enforceHttps_branches by exact Ht.
    cbv zeta. now rewrite trim_trim, E1.
  - destruct (startsWith (toLowerCase (trim inputUrl)) "http://");
      [discriminate|].
    destruct (schemePattern_test (trim inputUrl)); [discriminate|].
    injection Hret as <-.
    pose proof (trim_https_prefixed inputUrl) as Hfix.
    cbn [String.append] in Hfix |- *. split; [exact Hfix|].
    rewrite enforceHttps_branches by reflexivity. cbv zeta.
    now rewrite Hfix.
Qed.

End EnforceHttpsFurther.

Lemma enforceHttps_http_refused_witness :
  enforceHttps "  HTTP://Example.com " DEFAULT_ALERTS
  = {| alerted := ["For security reasons, only HTTPS URLs are allowed."];
       returned := None |}.
Proof.
  apply (enforceHttps_http_refused DEFAULT_ALERTS "  HTTP://Example.com ").
  reflexivity.
Defined.

Lemma enforceHttps_scheme_refused_witness :
  enforceHttps " ftp://host/file " DEFAULT_ALERTS
  = {| alerted := ["Protocol not allowed. Only HTTPS."]; returned := None |}.
Proof.
  apply (enforceHttps_scheme_refused DEFAULT_ALERTS " ftp://host/file "
           "ftp" "host/file"); (reflexivity || discriminate).
Defined.

Lemma enforceHttps_output_stable_witness :
  trim "https://example.com/a b" = "https://example.com/a b"
  /\ enforceHttps "https://example.com/a b" DEFAULT_ALERTS
     = {| alerted := []; returned := Some "https://example.com/a b" |}.
Proof.
  apply (enforceHttps_output_stable DEFAULT_ALERTS " example.com/a b ").
  reflexivity.
Defined.

(** ** parseToMd, further *)

Section ParseToMdFurther.

(** The parser looks at the place of a node only for the tag of the
    parent and the index of the node among the element children. *)
Lemma parseToMd_slot_congruence (s1 s2 : Slot) (node : Node) :
  parentTagName (parentElement s1) = parentTagName (parentElement s2) ->
  indexOfNode s1 = indexOfNode s2 ->
  parseToMd (Some s1) node = parseToMd (Some s2) node.
Proof.
  intros Htag Hidx.
  destruct node as [textContent|data|tagName attributes childNodes];
    [reflexivity | reflexivity |].
  rewrite !parseToMd_element_render. unfold render.
  now rewrite Htag, Hidx.
Qed.

Lemma filter_replicate_elements (k : nat) (e : Node) :
  isElement e = true ->
  length (filter (fun n => isElement n = true) (replicate k e)) = k.
Proof.
  intros He. induction k as [|k IH]; [reflexivity|].
  cbn [replicate]. rewrite filter_cons_True by exact He.
  cbn [length]. now rewrite IH.
Qed.

Lemma indexOfNode_slotAt (parentTag : string) (k : nat) :
  indexOfNode (slotAt parentTag k) = k.
Proof.
  unfold indexOfNode, slotAt. cbn [position parentElement parentChildNodes].
  rewrite take_ge by (rewrite length_replicate; lia).
  now apply filter_replicate_elements.
Qed.

Lemma concatChildren_childrenFrom (parentTag : string) (nodes rest : list Node) :
  forall before : list Node,
    nodes = (before ++ rest)%list ->
    concatChildren {| parentTagName := parentTag; parentChildNodes := nodes |}
      (length before) rest
    = childrenFrom parentTag
        (length (filter (fun n => isElement n = true) before)) rest.
Proof.
  induction rest as [|child rest IH]; intros before Hnodes; [reflexivity|].
  cbn [concatChildren childrenFrom].
  assert (Hhere :
    markdownOf
      (Some {| parentElement :=
                 {| parentTagName := parentTag; parentChildNodes := nodes |};
               position := length before |}) child
    = markdownOf
        (Some (slotAt parentTag
                 (length (filter (fun n => isElement n = true) before)))) child).
  { unfold markdownOf. erewrite parseToMd_slot_congruence; [reflexivity| reflexivity |].
    rewrite indexOfNode_slotAt. unfold indexOfNode.
    cbn [position parentElement parentChildNodes].
    now rewrite Hnodes, take_app_length. }
  rewrite Hhere. f_equal.
  specialize (IH (before ++ [child])%list).
  rewrite length_app, Nat.add_1_r in IH. rewrite IH
    by (rewrite Hnodes, <- app_assoc; reflexivity).
  rewrite filter_app, length_app. f_equal.
  destruct (isElement child) eqn:Hel.
  - rewrite filter_cons_True by exact Hel. cbn. lia.
  - rewrite filter_cons_False by (rewrite Hel; discriminate). cbn. lia.
Qed.

(** The markdown of an element from its children alone: what counts for a
    child is how many element children come before it. *)
Lemma parseToMd_element_childrenFrom slot tagName attributes childNodes :
  parseToMd slot (Element tagName attributes childNodes)
  = render slot tagName attributes (childrenFrom tagName 0 childNodes).
Proof.
  rewrite parseToMd_element_render. f_equal.
  now apply (concatChildren_childrenFrom tagName childNodes childNodes []).
Qed.

Lemma markdownOf_text slot textContent :
  markdownOf slot (Text textContent) = escapeHtml textContent.
Proof. reflexivity. Qed.

(** X7: two text nodes that follow one another among the children of an
    element give the markdown of the one text node that holds both texts:
    the parser does not see how a text is cut into nodes. *)
Theorem parseToMd_adjacent_texts slot tagName attributes
    (before after : list Node) (a b : string) :
  parseToMd slot (Element tagName attributes (before ++ Text a :: Text b :: after)%list)
  = parseToMd slot (Element tagName attributes (before ++ Text (a +:+ b) :: after)%list).
Proof.
  rewrite !parseToMd_element_childrenFrom. f_equal.
  generalize 0. induction before as [|child before IH]; intros k.
  - cbn [app childrenFrom isElement]. rewrite !markdownOf_text.
    rewrite !escapeHtml_flatMap, flatMapChars_append.
    now rewrite append_assoc.
  - cbn [app childrenFrom]. now rewrite IH.
Qed.

Lemma stripComments_element tagName attributes childNodes :
  stripComments (Element tagName attributes childNodes)
  = Element tagName attributes (stripChildren childNodes).
Proof. reflexivity. Qed.

Lemma isElement_stripComments (node : Node) :
  isElement (stripComments node) = isElement node.
Proof. now destruct node. Qed.

(** X8: comments leave no trace: the tree without its comments, at any
    depth, has the markdown of the tree, the numbers of the list items
    included. *)
Theorem parseToMd_stripComments (node : Node) :
  forall slot, parseToMd slot (stripComments node) = parseToMd slot node.
Proof.
  induction node as [textContent|data|tagName attributes childNodes IH]
    using Node_tree_ind; intros slot; [reflexivity | reflexivity |].
  rewrite stripComments_element, !parseToMd_element_childrenFrom. f_equal.
  generalize 0. induction IH as [|child rest Hchild _ IHrest]; intros k;
    [reflexivity|].
  cbn [stripChildren].
  assert (Hm : forall s, markdownOf s (stripComments child) = markdownOf s child)
    by (intros s; unfold markdownOf; now rewrite Hchild).
  destruct child as [textContent|data|tag attrs kids]; cbn [isComment childrenFrom].
  - now rewrite Hm, isElement_stripComments, IHrest.
  - cbn [isElement]. now rewrite IHrest.
  - now rewrite Hm, isElement_stripComments, IHrest.
Qed.

(** X9: a node that is not a list item has the same markdown wherever it
    hangs, below a parent or below none. *)
Theorem parseToMd_place_independent (s1 s2 : option Slot) (node : Node) :
  isListItem node = false -> parseToMd s1 node = parseToMd s2 node.
Proof.
  destruct node as [textContent|data|tagName attributes childNodes];
    [reflexivity | reflexivity |].
  cbn [isListItem]. intros Hli.
  rewrite !parseToMd_element_render. unfold render. now rewrite Hli.
Qed.

Lemma parseToMd_place_independent_witness :
  parseToMd None (Element "P" ∅ [Text "a"])
  = parseToMd (Some (slotAt "OL" 3)) (Element "P" ∅ [Text "a"]).
Proof.
  apply (parseToMd_place_independent None (Some (slotAt "OL" 3))
           (Element "P" ∅ [Text "a"])).
  reflexivity.
Defined.

End ParseToMdFurther.

(** ** Lists, unknown tags and markup characters *)

Section ListsAndMarkup.

Lemma markdownOf_listItem (parentTag : string) (k : nat) it :
  markdownOf (Some (slotAt parentTag k)) (listItem it)
  = (if bool_decide (parentTag = "OL") then ofNat (S k) +:+ ". " else "- ")
    +:+ itemContent it +:+ LF.
Proof.
  unfold markdownOf, listItem.
  rewrite parseToMd_element_render, render_list_item.
  now rewrite indexOfNode_slotAt, Nat.add_1_r.
Qed.

Lemma childrenFrom_numbered (items : list (gmap string string * list Node)) :
  forall k, childrenFrom "OL" k (map listItem items) = numberedLines (S k) items.
Proof.
  induction items as [|it items IH]; intros k; [reflexivity|].
  cbn [map childrenFrom numberedLines].
  change (isElement (listItem it)) with true. cbv iota.
  rewrite markdownOf_listItem, IH.
  rewrite bool_decide_eq_true_2 by reflexivity.
  now rewrite !append_assoc.
Qed.

Lemma childrenFrom_bullets (items : list (gmap string string * list Node)) :
  forall k, childrenFrom "UL" k (map listItem items) = bulletLines items.
Proof.
  induction items as [|it items IH]; intros k; [reflexivity|].
  cbn [map childrenFrom bulletLines].
  rewrite markdownOf_listItem, IH.
  rewrite bool_decide_eq_false_2 by discriminate.
  now rewrite !append_assoc.
Qed.

(** X10: an ordered list whose children are list items gives one line
    for each item, numbered 1, 2, 3 and so on in document order, and a
    line feed; an unordered list gives the same lines with a hyphen in
    place of the number. *)
Theorem parseToMd_lists slot attributes
    (items : list (gmap string string * list Node)) :
  parseToMd slot (Element "OL" attributes (map listItem items))
    = Return (numberedLines 1 items +:+ LF)
  /\ parseToMd slot (Element "UL" attributes (map listItem items))
    = Return (bulletLines items +:+ LF).
Proof.
  rewrite !parseToMd_element_childrenFrom.
  now rewrite childrenFrom_numbered, childrenFrom_bullets.
Qed.

(** X11: an element whose tag is none of those the parser knows (a span,
    a table, a tag in lower case) gives the markdown of its children and
    nothing around it. *)
Theorem parseToMd_unknown_tag slot tagName attributes childNodes :
  tagName ∉ knownTags ->
  parseToMd slot (Element tagName attributes childNodes)
  = Return (concatChildren
              {| parentTagName := tagName; parentChildNodes := childNodes |}
              0 childNodes).
Proof.
  intros Hunknown.
  assert (Hno : forall known, known ∈ knownTags -> bool_decide (tagName = known) = false).
  { intros known Hin. apply bool_decide_eq_false_2. intros ->. now apply Hunknown. }
  rewrite parseToMd_element_render. unfold render.
  now rewrite !Hno by (unfold knownTags; set_solver).
Qed.

Lemma parseToMd_unknown_tag_witness :
  parseToMd None (Element "SPAN" ∅ [Text "a"; Element "B" ∅ [Text "b"]])
  = Return "a**b**".
Proof.
  apply (parseToMd_unknown_tag None "SPAN" ∅ [Text "a"; Element "B" ∅ [Text "b"]]).
  unfold knownTags. rewrite !not_elem_of_cons.
  repeat split; (discriminate || apply not_elem_of_nil).
Defined.

Lemma markup_cases (c : ascii) :
  isMarkupChar c = true ->
  c = "<"%char \/ c = ">"%char \/ c = "034"%char \/ c = "'"%char.
Proof.
  unfold isMarkupChar. intros H.
  repeat (apply orb_prop in H; destruct H as [H|H]);
    apply Ascii.eqb_eq in H; auto.
Qed.

Lemma includes_escapeHtml_markup (c : ascii) (text : string) :
  isMarkupChar c = true -> includes (escapeHtml text) c = false.
Proof.
  intros Hc. rewrite escapeHtml_flatMap. apply includes_flatMap_false.
  intros x. apply entityOf_no_markup;
    destruct (markup_cases c Hc) as [->|[->|[->| ->]]];
    (reflexivity || discriminate).
Qed.

Lemma includes_decimal (c : ascii) (d : Decimal.uint) :
  isMarkupChar c = true -> includes (NilEmpty.string_of_uint d) c = false.
Proof.
  intros Hc.
  destruct (markup_cases c Hc) as [->|[->|[->| ->]]];
    induction d; cbn [NilEmpty.string_of_uint includes]; auto.
Qed.

Lemma includes_cons (x c : ascii) (s : string) :
  includes (String x s) c = Ascii.eqb x c || includes s c.
Proof. reflexivity. Qed.

Lemma includes_render_markup (c : ascii) slot tagName attributes content md :
  isMarkupChar c = true ->
  tagName <> "A" -> tagName <> "IMG" ->
  includes content c = false ->
  render slot tagName attributes content = Return md ->
  includes md c = false.
Proof.
  intros Hc Ha Himg Hcontent Hmd.
  pose proof (fun n => includes_decimal c (Nat.to_uint n) Hc) as Hnum.
  unfold render, ofNat in Hmd.
  repeat case_match; try discriminate;
    try (match goal with
         | H : bool_decide (_ = "A") = true |- _ =>
             apply bool_decide_eq_true in H; contradiction
         | H : bool_decide (_ = "IMG") = true |- _ =>
             apply bool_decide_eq_true in H; contradiction
         end);
    injection Hmd as <-;
    destruct (markup_cases c Hc) as [->|[->|[->| ->]]];
    repeat (rewrite includes_cons || rewrite includes_append
            || rewrite Hcontent || rewrite Hnum);
    reflexivity.
Qed.

Lemma includes_concatChildren_markup (c : ascii) (rest : list Node) :
  Forall (fun child => forall slot md,
            parseToMd slot child = Return md -> includes md c = false) rest ->
  forall self i, includes (concatChildren self i rest) c = false.
Proof.
  induction 1 as [|child rest Hchild _ IH]; intros self i; [reflexivity|].
  cbn [concatChildren]. rewrite includes_append, IH. unfold markdownOf.
  destruct (parseToMd (Some {| parentElement := self; position := i |}) child)
    as [md|] eqn:Hmd; [|reflexivity].
  now rewrite (Hchild _ _ Hmd).
Qed.

(** X12: the markdown of a tree without links and images holds no
    less-than sign, no greater-than sign, no double quote and no
    apostrophe: without attribute values, which are written as they are,
    no markup character reaches the output. *)
Theorem parseToMd_plain_tree_no_markup (node : Node) :
  NoLinkOrImage node ->
  forall slot md c,
    isMarkupChar c = true ->
    parseToMd slot node = Return md ->
    includes md c = false.
Proof.
  induction node as [textContent|data|tagName attributes childNodes IH]
    using Node_tree_ind; intros Hplain slot md c Hc Hmd.
  - injection Hmd as <-. now apply includes_escapeHtml_markup.
  - now injection Hmd as <-.
  - inversion Hplain as [| |tag attrs kids Ha Himg Hkids]; subst.
    rewrite parseToMd_element_render in Hmd.
    eapply includes_render_markup; [exact Hc | exact Ha | exact Himg | | exact Hmd].
    apply includes_concatChildren_markup.
    rewrite Forall_forall in IH, Hkids |- *.
    intros child Hin slot' md' Hmd'.
    now apply (IH child Hin (Hkids child Hin) slot' md' c).
Qed.

Lemma parseToMd_plain_tree_no_markup_witness :
  NoLinkOrImage (Element "P" ∅ [Text "<a href='x'>"])
  /\ parseToMd None (Element "P" ∅ [Text "<a href='x'>"])
     = Return ("&lt;a href=&#039;x&#039;&gt;" +:+ LF +:+ LF)
  /\ includes ("&lt;a href=&#039;x&#039;&gt;" +:+ LF +:+ LF) "<" = false.
Proof.
  assert (Hplain : NoLinkOrImage (Element "P" ∅ [Text "<a href='x'>"])).
  { constructor; [discriminate | discriminate |].
    constructor; [constructor | constructor]. }
  split; [exact Hplain|]. split; [reflexivity|].
  apply (parseToMd_plain_tree_no_markup _ Hplain None); reflexivity.
Defined.

(** X13: [getMarkdown] on an editor element that is a [DIV], as the
    editor creates it, never throws and returns the markdown of the
    children of that element, trimmed; the two line feeds the parser
    puts after the element itself are gone, and so is any white space
    around the result. *)
Theorem getMarkdown_editor slot attributes childNodes :
  let content :=
    concatChildren {| parentTagName := "DIV"; parentChildNodes := childNodes |}
      0 childNodes in
  getMarkdown slot (Element "DIV" attributes childNodes) = Return (trim content)
  /\ trim (trim content) = trim content.
Proof.
  intros content. split; [|apply trim_trim].
  unfold getMarkdown. rewrite parseToMd_element_render.
  change (render slot "DIV" attributes ?c)
    with (Return (if truthy (trim content) then content +:+ LF +:+ LF
                  else EmptyString)).
  cbn [mbind Completion_bind]. f_equal.
  destruct (trim content) as [|x r] eqn:Htrim; [reflexivity|].
  cbn [truthy]. rewrite <- Htrim. now apply trim_append_blank.
Qed.

End ListsAndMarkup.

(** ** The save button *)

Section SaveButton.

Variable messages : Messages.

Lemma orEmpty_id (value : string) : orEmpty value = value.
Proof. now destruct value. Qed.

Lemma widthPattern_truthy (w : string) :
  widthPattern_test w = true -> truthy w = true.
Proof. now destruct w. Qed.

Lemma skipDigits_split (s : string) :
  exists digits, s = digits +:+ skipDigits s /\ allDigits digits = true.
Proof.
  induction s as [|c s (digits & Hs & Hall)]; [now exists EmptyString|].
  cbn [skipDigits]. destruct (isDigit c) eqn:Hc.
  - exists (String c digits). cbn [allDigits String.append].
    rewrite Hc, Hall. now rewrite <- Hs.
  - now exists EmptyString.
Qed.

Lemma skipDigits_unit (digits unit : string) :
  allDigits digits = true -> skipDigits unit = unit ->
  skipDigits (digits +:+ unit) = unit.
Proof.
  intros Hall Hunit. induction digits as [|c digits IH]; [exact Hunit|].
  cbn [allDigits] in Hall. apply andb_prop in Hall. destruct Hall as [Hc Hall].
  change (String c digits +:+ unit) with (String c (digits +:+ unit)).
  cbn [skipDigits]. rewrite Hc. now apply IH.
Qed.

(** X14: the width pattern passes exactly the texts made of one or more
    digits, alone or followed by [px] or by a percent sign; any other
    width (empty, with a sign, a point, a space or another unit) does not
    pass. *)
Theorem widthPattern_test_spec (w : string) :
  widthPattern_test w = true <->
  exists digits,
    digits <> EmptyString /\ allDigits digits = true
    /\ (w = digits \/ w = digits +:+ "px" \/ w = digits +:+ "%").
Proof.
  split.
  - destruct w as [|c w]; [discriminate|]. unfold widthPattern_test.
    intros H. apply andb_prop in H. destruct H as [Hc Hunit].
    cbn [skipDigits] in Hunit. rewrite Hc in Hunit. cbv zeta in Hunit.
    destruct (skipDigits_split w) as (digits & Hw & Hall).
    exists (String c digits). split; [discriminate|].
    split; [cbn [allDigits]; now rewrite Hc, Hall|].
    apply orb_prop in Hunit. destruct Hunit as [Hunit|Hunit];
      [apply orb_prop in Hunit; destruct Hunit as [Hunit|Hunit]|];
      apply String.eqb_eq in Hunit; rewrite Hunit in Hw;
      cbn [String.append]; rewrite Hw; auto.
    left. now rewrite append_empty_r.
  - intros (digits & Hne & Hall & Hw).
    assert (Hskip : forall unit, skipDigits unit = unit ->
                      w = digits +:+ unit ->
                      skipDigits w = unit).
    { intros unit Hunit ->. now apply skipDigits_unit. }
    destruct digits as [|c digits]; [congruence|].
    pose proof Hall as Hc. cbn [allDigits] in Hc.
    apply andb_prop in Hc. destruct Hc as [Hc _].
    assert (Hhead : exists w', w = String c w').
    { destruct Hw as [->|[->| ->]]; eexists; reflexivity. }
    destruct Hhead as [w' Hw']. unfold widthPattern_test.
    rewrite Hw' at 1. rewrite Hc. cbv zeta. cbn [andb].
    destruct Hw as [Hw|[Hw|Hw]].
    + rewrite (Hskip EmptyString); [reflexivity | reflexivity |].
      now rewrite append_empty_r.
    + rewrite (Hskip "px"); [reflexivity | reflexivity | exact Hw].
    + rewrite (Hskip "%"); [reflexivity | reflexivity | exact Hw].
Qed.

Lemma enforceHttps_returned_https (inputUrl url : string) :
  returned (enforceHttps inputUrl messages) = Some url ->
  startsWith (toLowerCase url) "https://" = true.
Proof.
  intros Hret.
  destruct (truthy inputUrl) eqn:Hne;
    [|unfold enforceHttps in Hret; rewrite Hne in Hret; discriminate].
  rewrite enforceHttps_branches in Hret by exact Hne. cbv zeta in Hret.
  destruct (startsWith (toLowerCase (trim inputUrl)) "https://") eqn:E1.
  - now injection Hret as <-.
  - destruct (startsWith (toLowerCase (trim inputUrl)) "http://");
      [discriminate|].
    destruct (schemePattern_test (trim inputUrl)); [discriminate|].
    now injection Hret as <-.
Qed.

Lemma enforceHttps_returned_truthy (inputUrl url : string) :
  returned (enforceHttps inputUrl messages) = Some url -> truthy url = true.
Proof.
  intros Hret. apply enforceHttps_returned_https in Hret.
  destruct url; [discriminate Hret | reflexivity].
Qed.

Lemma trimEnd_truthy (t : string) : truthy (trimEnd t) = negb (isBlank t).
Proof.
  induction t as [|c t IH]; [reflexivity|].
  rewrite trimEnd_cons. cbn [isBlank].
  destruct (trimEnd t) as [|x r].
  - cbn [truthy] in IH. apply (f_equal negb) in IH.
    rewrite negb_involutive in IH. rewrite <- IH.
    now destruct (isWhiteSpace c).
  - cbn [truthy] in IH |- *. apply (f_equal negb) in IH.
    rewrite negb_involutive in IH. rewrite <- IH.
    now rewrite andb_false_r.
Qed.

Lemma isBlank_trimStart (s : string) : isBlank (trimStart s) = isBlank s.
Proof.
  induction s as [|c s IH]; [reflexivity|]. cbn [trimStart isBlank].
  destruct (isWhiteSpace c) eqn:Hc; [exact IH|]. cbn [isBlank].
  now rewrite Hc.
Qed.

(** A text is empty after trimming exactly when it is white space only. *)
Lemma truthy_trim (s : string) : truthy (trim s) = negb (isBlank s).
Proof. unfold trim. now rewrite trimEnd_truthy, isBlank_trimStart. Qed.

Lemma render_image_lookup slot attributes content
    (src alt : string) (width : option string) :
  attributes !! "src" = Some src ->
  attributes !! "alt" = Some alt ->
  attributes !! "width" = width ->
  render slot "IMG" attributes content
  = Return match width with
           | Some w => if truthy w then rawImage src alt w
                       else markdownImage alt src
           | None => markdownImage alt src
           end.
Proof.
  intros Hsrc Halt Hwidth. unfold render, getAttribute.
  rewrite Hsrc, Halt, Hwidth.
  destruct alt as [|a alt]; destruct width as [[|x w]|]; reflexivity.
Qed.

Lemma setImageAttributes_parse slot (removeStale : bool)
    (attributes : gmap string string) (src alt w : string) childNodes :
  removeStale = true \/ attributes !! "width" = None ->
  parseToMd slot
    (Element "IMG" (setImageAttributes removeStale attributes src alt w) childNodes)
  = Return (if widthPattern_test w then rawImage src alt w
            else markdownImage alt src).
Proof.
  intros Hstale. rewrite parseToMd_element_render.
  unfold setImageAttributes. destruct (widthPattern_test w) eqn:Hw.
  - rewrite (widthPattern_truthy w Hw). cbn [andb].
    rewrite (render_image_lookup slot _ _ src alt (Some w)).
    + now rewrite (widthPattern_truthy w Hw).
    + rewrite !lookup_insert_ne by discriminate. apply lookup_insert_eq.
    + rewrite lookup_insert_ne by discriminate. apply lookup_insert_eq.
    + apply lookup_insert_eq.
  - rewrite andb_false_r.
    rewrite (render_image_lookup slot _ _ src alt None); [reflexivity | | |].
    + destruct removeStale;
        [rewrite lookup_delete_ne by discriminate|];
        rewrite lookup_insert_ne by discriminate; apply lookup_insert_eq.
    + destruct removeStale;
        [rewrite lookup_delete_ne by discriminate|]; apply lookup_insert_eq.
    + destruct removeStale; [apply lookup_delete_eq|].
      rewrite !lookup_insert_ne by discriminate.
      destruct Hstale as [Hstale|Hstale]; [discriminate | exact Hstale].
Qed.

End SaveButton.

Section SaveButtonProperties.

Variable messages : Messages.

Lemma setImageAttributes_src (removeStale : bool)
    (attributes : gmap string string) (src alt w : string) :
  setImageAttributes removeStale attributes src alt w !! "src" = Some src.
Proof.
  unfold setImageAttributes.
  destruct (truthy w && widthPattern_test w); [|destruct removeStale];
    rewrite ?lookup_delete_ne by discriminate;
    rewrite !lookup_insert_ne by discriminate; apply lookup_insert_eq.
Qed.

Lemma setImageAttributes_other (removeStale : bool)
    (attributes : gmap string string) (src alt w name : string) :
  name <> "src" -> name <> "alt" -> name <> "width" ->
  setImageAttributes removeStale attributes src alt w !! name = attributes !! name.
Proof.
  intros Hsrc Halt Hwidth. unfold setImageAttributes.
  destruct (truthy w && widthPattern_test w); [|destruct removeStale];
    rewrite ?lookup_delete_ne by congruence;
    now rewrite !lookup_insert_ne by congruence.
Qed.

Lemma onSaveClick_image (existingNode : option (gmap string string))
    (urlVal altVal widthVal secureUrl : string) :
  returned (enforceHttps urlVal messages) = Some secureUrl ->
  onSaveClick "image" existingNode urlVal altVal widthVal messages
  = match existingNode with
    | Some attributes =>
        {| savedAlerts := alerted (enforceHttps urlVal messages);
           savedCommands := [];
           savedExisting :=
             Some (setImageAttributes true attributes secureUrl altVal widthVal) |}
    | None =>
        {| savedAlerts := alerted (enforceHttps urlVal messages);
           savedCommands :=
             [InsertHTML
                (Element "IMG"
                   (setImageAttributes false ∅ secureUrl altVal widthVal) [])];
           savedExisting := None |}
    end.
Proof.
  intros Hret. unfold onSaveClick.
  rewrite bool_decide_eq_false_2 by discriminate.
  rewrite bool_decide_eq_true_2 by reflexivity.
  rewrite Hret, (enforceHttps_returned_truthy messages urlVal secureUrl Hret).
  now rewrite !orEmpty_id.
Qed.

(** X15: saving the image popup with a URL that [enforceHttps] accepts
    leaves an image whose markdown is the raw tag with the accepted URL,
    the alt text and the width when the width field passes the width
    pattern, and the markdown image otherwise, whatever width the image
    had before; an image under edit keeps its other attributes and no
    command is executed, a new image is handed to [insertHTML]. *)
Theorem onSaveClick_image_markdown
    (existingNode : option (gmap string string))
    (urlVal altVal widthVal secureUrl : string) slot childNodes :
  returned (enforceHttps urlVal messages) = Some secureUrl ->
  let saved := onSaveClick "image" existingNode urlVal altVal widthVal messages in
  let form :=
    Return (if widthPattern_test widthVal
            then rawImage secureUrl altVal widthVal
            else markdownImage altVal secureUrl) in
  match existingNode with
  | Some attributes =>
      savedCommands saved = []
      /\ exists attributes',
           savedExisting saved = Some attributes'
           /\ parseToMd slot (Element "IMG" attributes' childNodes) = form
           /\ forall name, name <> "src" -> name <> "alt" -> name <> "width" ->
                           attributes' !! name = attributes !! name
  | None =>
      savedExisting saved = None
      /\ exists attributes',
           savedCommands saved = [InsertHTML (Element "IMG" attributes' [])]
           /\ parseToMd slot (Element "IMG" attributes' childNodes) = form
  end.
Proof.
  intros Hret saved form. subst saved form.
  rewrite (onSaveClick_image existingNode urlVal altVal widthVal secureUrl Hret).
  destruct existingNode as [attributes|]; cbn [savedCommands savedExisting].
  - split; [reflexivity|]. eexists. split; [reflexivity|]. split.
    + apply setImageAttributes_parse. now left.
    + intros name. apply setImageAttributes_other.
  - split; [reflexivity|]. eexists. split; [reflexivity|].
    apply setImageAttributes_parse. right. apply lookup_empty.
Qed.

(** X16: whatever the popup and the fields, the save button creates a
    link only to, inserts an image only from, and sets the source of an
    existing image only to a URL that begins, whatever the case of its
    letters, with the https prefix. *)
Theorem onSaveClick_only_https (type : string)
    (existingNode : option (gmap string string))
    (urlVal altVal widthVal : string) :
  let saved := onSaveClick type existingNode urlVal altVal widthVal messages in
  (forall url, CreateLink url ∈ savedCommands saved ->
               startsWith (toLowerCase url) "https://" = true)
  /\ (forall img, InsertHTML img ∈ savedCommands saved ->
        exists attributes src,
          img = Element "IMG" attributes []
          /\ attributes !! "src" = Some src
          /\ startsWith (toLowerCase src) "https://" = true)
  /\ (savedExisting saved = existingNode
      \/ exists attributes src,
           savedExisting saved = Some attributes
           /\ attributes !! "src" = Some src
           /\ startsWith (toLowerCase src) "https://" = true).
Proof.
  intros saved. subst saved. unfold onSaveClick.
  destruct (returned (enforceHttps urlVal messages)) as [secureUrl|] eqn:Hret.
  - pose proof (enforceHttps_returned_https messages urlVal secureUrl Hret) as Hs.
    rewrite (enforceHttps_returned_truthy messages urlVal secureUrl Hret).
    destruct (bool_decide (type = "link")).
    + destruct (negb (truthy (trim urlVal))); cbn [savedCommands savedExisting];
        (split; [|split; [|now left]]).
      * intros url Hin. apply list_elem_of_singleton in Hin. discriminate Hin.
      * intros img Hin. apply list_elem_of_singleton in Hin. discriminate Hin.
      * intros url Hin. apply list_elem_of_singleton in Hin.
        now injection Hin as ->.
      * intros img Hin. apply list_elem_of_singleton in Hin. discriminate Hin.
    + destruct (bool_decide (type = "image"));
        [|cbn [savedCommands savedExisting];
          split; [|split; [|now left]]; intros x Hin;
          now apply elem_of_nil in Hin].
      destruct existingNode as [attributes|]; cbn [savedCommands savedExisting].
      * split; [|split]; [intros x Hin; now apply elem_of_nil in Hin ..|].
        right. eexists _, secureUrl. split; [reflexivity|].
        split; [apply setImageAttributes_src | exact Hs].
      * split; [|split; [|now left]].
        -- intros url Hin. apply list_elem_of_singleton in Hin. discriminate Hin.
        -- intros img Hin. apply list_elem_of_singleton in Hin.
           injection Hin as ->.
           eexists _, secureUrl. split; [reflexivity|].
           split; [apply setImageAttributes_src | exact Hs].
  - destruct (bool_decide (type = "link")).
    + destruct (negb (truthy (trim urlVal))); cbn [savedCommands savedExisting];
        (split; [|split; [|now left]]); intros x Hin;
        try (now apply elem_of_nil in Hin);
        apply list_elem_of_singleton in Hin; discriminate Hin.
    + destruct (bool_decide (type = "image")); cbn [savedCommands savedExisting];
        (split; [|split; [|now left]]); intros x Hin;
        now apply elem_of_nil in Hin.
Qed.

(** X17: saving the link popup never touches an image; with a URL field
    that is empty or white space only it removes the link and shows no
    message; with any other URL it shows what [enforceHttps] shows and
    creates a link, to the URL [enforceHttps] returns, exactly when one is
    returned. *)
Theorem onSaveClick_link (existingNode : option (gmap string string))
    (urlVal altVal widthVal : string) :
  let saved := onSaveClick "link" existingNode urlVal altVal widthVal messages in
  savedExisting saved = existingNode
  /\ (isBlank urlVal = true ->
      savedAlerts saved = [] /\ savedCommands saved = [Unlink])
  /\ (isBlank urlVal = false ->
      savedAlerts saved = alerted (enforceHttps urlVal messages)
      /\ savedCommands saved
         = match returned (enforceHttps urlVal messages) with
           | Some secureUrl => [CreateLink secureUrl]
           | None => []
           end).
Proof.
  intros saved. subst saved. unfold onSaveClick.
  rewrite bool_decide_eq_true_2 by reflexivity. rewrite truthy_trim.
  destruct (isBlank urlVal); cbn [negb].
  - split; [reflexivity|]. split; [now split | discriminate].
  - destruct (returned (enforceHttps urlVal messages)) as [secureUrl|] eqn:Hret.
    + rewrite (enforceHttps_returned_truthy messages urlVal secureUrl Hret).
      split; [reflexivity|]. split; [discriminate | now split].
    + split; [reflexivity|]. split; [discriminate | now split].
Qed.

End SaveButtonProperties.

Lemma onSaveClick_image_markdown_witness :
  exists attributes',
    savedExisting
      (onSaveClick "image" (Some (image_attributes "200px"))
         " x/z.png " "new" "12em" DEFAULT_ALERTS)
    = Some attributes'
    /\ parseToMd None (Element "IMG" attributes' [])
       = Return (markdownImage "new" "https://x/z.png").
Proof.
  destruct (onSaveClick_image_markdown DEFAULT_ALERTS
              (Some (image_attributes "200px")) " x/z.png " "new" "12em"
              "https://x/z.png" None [] eq_refl)
    as [_ (attributes' & Hsaved & Hmd & _)].
  exists attributes'. split; [exact Hsaved | exact Hmd].
Defined.

(** ** Bounds, white space and attribute values *)

Section BoundsAndAttributes.

Variable messages : Messages.

Lemma entityOf_at_most_six (c : ascii) : String.length (entityOf c) <= 6.
Proof. each_char c; lia. Qed.

Lemma flatMap_entity_at_most (s : string) :
  String.length (flatMapChars entityOf s) <= 6 * String.length s.
Proof.
  induction s as [|c s IH]; [reflexivity|].
  cbn [flatMapChars String.length]. rewrite length_append.
  pose proof (entityOf_at_most_six c). lia.
Qed.

(** X18: the escaped text is at least as long as the text and at most six
    times as long. *)
Theorem escapeHtml_length_bounds (text : string) :
  String.length text <= String.length (escapeHtml text)
  /\ String.length (escapeHtml text) <= 6 * String.length text.
Proof.
  rewrite escapeHtml_flatMap. split;
    [apply flatMap_entity_length | apply flatMap_entity_at_most].
Qed.

(** X19: white space around a URL that is more than white space makes no
    difference to [enforceHttps]: the messages and the result are those of
    the trimmed URL. *)
Theorem enforceHttps_ignores_outer_space (inputUrl : string) :
  truthy (trim inputUrl) = true ->
  enforceHttps inputUrl messages = enforceHttps (trim inputUrl) messages.
Proof.
  intros Ht.
  rewrite (enforceHttps_branches messages inputUrl) by (now apply trim_truthy).
  rewrite (enforceHttps_branches messages (trim inputUrl)) by exact Ht.
  cbv zeta. now rewrite trim_trim.
Qed.

Lemma includes_append_r (a b : string) (c : ascii) :
  includes b c = true -> includes (a +:+ b) c = true.
Proof. intros H. rewrite includes_append, H. apply orb_true_r. Qed.

Lemma includes_append_l (a b : string) (c : ascii) :
  includes a c = true -> includes (a +:+ b) c = true.
Proof. intros H. now rewrite includes_append, H. Qed.

(** X20: the [href] of a link is written into the markdown as it is, not
    escaped, and the text null in its place when the link has none: the
    markdown of a link is an opening bracket, the markdown of its
    children, a closing bracket and, in parentheses, the very value of
    the attribute, so that every character of the value, a markup
    character as well, is a character of the markdown; the text of the
    link is escaped, its [href] is not. *)
Theorem parseToMd_link_href_verbatim slot attributes childNodes :
  let content :=
    concatChildren {| parentTagName := "A"; parentChildNodes := childNodes |}
      0 childNodes in
  parseToMd slot (Element "A" attributes childNodes)
    = Return ("[" +:+ content +:+ "]("
              +:+ match getAttribute attributes "href" with
                  | Some href => href
                  | None => "null"
                  end
              +:+ ")")
  /\ (forall href c,
        getAttribute attributes "href" = Some href ->
        includes href c = true ->
        exists md,
          parseToMd slot (Element "A" attributes childNodes) = Return md
          /\ includes md c = true)
  /\ parseToMd slot
       (Element "A" (<["href" := "https://x/?a=<b>&c"]> ∅) [Text "<&"])
     = Return "[&lt;&amp;](https://x/?a=<b>&c)".
Proof.
  intros content.
  assert (Hmd : parseToMd slot (Element "A" attributes childNodes)
                = Return ("[" +:+ content +:+ "]("
                          +:+ match getAttribute attributes "href" with
                              | Some href => href
                              | None => "null"
                              end
                          +:+ ")")).
  { rewrite parseToMd_element_render. reflexivity. }
  split; [exact Hmd|]. split; [|reflexivity].
  intros href c Hhref Hc. rewrite Hmd, Hhref. eexists. split; [reflexivity|].
  do 3 apply includes_append_r. now apply includes_append_l.
Qed.

End BoundsAndAttributes.

Lemma enforceHttps_ignores_outer_space_witness :
  enforceHttps "  ftp://host " DEFAULT_ALERTS
  = enforceHttps "ftp://host" DEFAULT_ALERTS.
Proof.
  apply (enforceHttps_ignores_outer_space DEFAULT_ALERTS "  ftp://host ").
  reflexivity.
Defined.

(** ** Paragraphs *)

Section Paragraphs.

Lemma render_paragraph slot tagName attributes content :
  tagName = "P" \/ tagName = "DIV" ->
  render slot tagName attributes content
  = Return (if truthy (trim content) then content +:+ LF +:+ LF else EmptyString).
Proof. now intros [->| ->]. Qed.

(** A text has nothing left after trimming exactly when each of its
    characters is white space. *)
Lemma trim_empty_iff_blank (content : string) :
  trim content = EmptyString <-> isBlank content = true.
Proof.
  pose proof (truthy_trim content) as H.
  destruct (trim content); destruct (isBlank content);
    cbn in H; split; congruence.
Qed.

(** C7: a paragraph or a div whose gathered content holds nothing but
    white space (it is empty once trimmed) gives the empty string, any
    other gives the content, as it is, and two line feeds; so the
    paragraph of the text [<script>] gives the escaped text and two line
    feeds, a paragraph of spaces and a line break gives nothing, and a
    div keeps the spaces around its text. *)
Theorem parseToMd_paragraph slot attributes childNodes :
  parseToMd slot (Element "P" attributes childNodes)
    = Return
        (let content :=
           concatChildren {| parentTagName := "P"; parentChildNodes := childNodes |}
             0 childNodes in
         if isBlank content then EmptyString else content +:+ LF +:+ LF)
  /\ parseToMd slot (Element "DIV" attributes childNodes)
    = Return
        (let content :=
           concatChildren {| parentTagName := "DIV"; parentChildNodes := childNodes |}
             0 childNodes in
         if isBlank content then EmptyString else content +:+ LF +:+ LF)
  /\ (forall content : string,
        trim content = EmptyString <-> isBlank content = true)
  /\ parseToMd slot (Element "P" attributes [Text "<script>"])
    = Return ("&lt;script&gt;" +:+ LF +:+ LF)
  /\ parseToMd slot (Element "P" attributes [Text "  "; Element "BR" ∅ []])
    = Return EmptyString
  /\ parseToMd slot (Element "DIV" attributes [Text " a "])
    = Return (" a " +:+ LF +:+ LF).
Proof.
  split; [|split; [|split; [exact trim_empty_iff_blank|]]].
  - rewrite parseToMd_element_render, render_paragraph by now left.
    cbv zeta. rewrite truthy_trim. now destruct (isBlank _).
  - rewrite parseToMd_element_render, render_paragraph by now right.
    cbv zeta. rewrite truthy_trim. now destruct (isBlank _).
  - repeat split.
Qed.

End Paragraphs.
